(** * Numerical-methods front end: a shallow embedding of the client code

    The repository is an Angular client: an HTTP gateway ([ApiService]), two
    form components ([LinearSystemSolverComponent], [RootFinderComponent])
    and a theme store ([ThemeService]).  Each TypeScript method is embedded
    as a function on the fields it reads and writes; the browser services it
    calls (timers, [localStorage], the class list of the root element, the
    HTTP client) are explicit state. *)

From Stdlib Require Import ZArith Lia Ascii String.
From stdpp Require Import base option list strings gmap.

Local Open Scope string_scope.
Local Open Scope list_scope.
Local Open Scope Z_scope.

(** * JavaScript values and completions *)

(** A JSON number as it is written: [digits * 10^(-scale)].  The client
    never computes with the numeric fields of a request, it only copies
    them, so the literal is all that matters ([0.00001] is [Decimal 1 5]). *)
Record number := Decimal { digits : Z; scale : nat }.

Definition int (z : Z) : number := Decimal z 0.

(** A possibly missing number: the property is absent ([undefined]), holds
    [null] (what a cleared numeric input yields), or holds a number. *)
Inductive nullable_number :=
| JsUndefined
| JsNull
| JsNum (n : number).

(** [x === null] *)
Definition strict_eq_null (x : nullable_number) : bool :=
  match x with JsNull => true | _ => false end.

(** [x == null]: loose equality identifies [null] and [undefined]. *)
Definition loose_eq_null (x : nullable_number) : bool :=
  match x with JsNull | JsUndefined => true | JsNum _ => false end.

Inductive JsError :=
| TypeError (msg : string)
| RangeError (msg : string).

(** How a call ends: with a value, or with a thrown error. *)
Inductive completion (A : Type) :=
| Normal (a : A)
| Throw (e : JsError).
Arguments Normal {A} a.
Arguments Throw {A} e.

(** [String(b)] for a boolean. *)
Definition String_of_bool (b : bool) : string :=
  if b then "true" else "false".

(** [cell === ''] *)
Definition is_empty (s : string) : bool := bool_decide (s = "").

(** * Methods as state transformers that may throw *)

(** A method body runs against the object (and browser) state [S] it
    mutates; a statement may throw, and what was written before stays. *)
Definition Action (S A : Type) : Type := S → completion A * S.

Definition ret {S A} (a : A) : Action S A := λ s, (Normal a, s).

Definition bind {S A B} (c : Action S A) (k : A → Action S B) : Action S B :=
  λ s, match c s with
       | (Normal a, s') => k a s'
       | (Throw e, s') => (Throw e, s')
       end.

Definition throw {S A} (e : JsError) : Action S A := λ s, (Throw e, s).
Definition read {S A} (f : S → A) : Action S A := λ s, (Normal (f s), s).
Definition write {S} (f : S → S) : Action S unit := λ s, (Normal tt, f s).

Declare Scope action_scope.
Delimit Scope action_scope with action.
Notation "x <- c ;; k" := (bind c (λ x, k))
  (at level 100, c at next level, right associativity) : action_scope.
Notation "c ;; k" := (bind c (λ _, k))
  (at level 100, right associativity) : action_scope.
Local Open Scope action_scope.

(** * ApiService *)

Module ApiService.

Record SolveRequest := mkSolveRequest {
  method : string;
  matrix : list (list string);
  constants : list string;
  precision : nullable_number;
  scaling : option bool;
  stepByStep : option bool;
  luForm : option string;
  initialGuess : option (list string);
  stoppingCondition : option string;
  maxIterations : option number;
  tolerance : option number;
  symbolic : option bool
}.

Record SolveResponse := mkSolveResponse {
  solution : option (list string);
  executionTime : string;
  iterations : option number;
  res_steps : option (list string);
  res_message : option string;
  res_error : option string
}.

Record RootFindingRequest := mkRootFindingRequest {
  rf_method : string;
  rf_equation : string;
  rf_xLower : option string;
  rf_xUpper : option string;
  rf_x0 : option string;
  rf_x1 : option string;
  rf_gEquation : option string;
  rf_precision : nullable_number;
  rf_eps : number;
  rf_maxIterations : number;
  rf_stepByStep : option bool
}.

Record RootFindingResponse := mkRootFindingResponse {
  root : option number;
  rfr_iterations : option number;
  approximateError : option number;
  significantFigures : option number;
  rfr_executionTime : string;
  rfr_steps : option (list string);
  plotImage : option string;
  rfr_message : option string;
  rfr_error : option string
}.

(** What [HttpClient.post] is asked to send.  The observable it returns is
    cold: the request leaves when the caller subscribes. *)
Inductive HttpBody :=
| LinearBody (r : SolveRequest)
| RootBody (r : RootFindingRequest).

Record HttpPost := mkPost { url : string; body : HttpBody }.

Definition apiUrl : string := "http://localhost:8080/api".

Definition Stmt := Action SolveRequest.

(** Field assignments [request.f = v]. *)
Definition set_matrix (m : list (list string)) (r : SolveRequest) :=
  mkSolveRequest (method r) m (constants r) (precision r) (scaling r)
    (stepByStep r) (luForm r) (initialGuess r) (stoppingCondition r)
    (maxIterations r) (tolerance r) (symbolic r).
Definition set_constants (c : list string) (r : SolveRequest) :=
  mkSolveRequest (method r) (matrix r) c (precision r) (scaling r)
    (stepByStep r) (luForm r) (initialGuess r) (stoppingCondition r)
    (maxIterations r) (tolerance r) (symbolic r).
Definition set_initialGuess (g : option (list string)) (r : SolveRequest) :=
  mkSolveRequest (method r) (matrix r) (constants r) (precision r)
    (scaling r) (stepByStep r) (luForm r) g (stoppingCondition r)
    (maxIterations r) (tolerance r) (symbolic r).
Definition set_precision (p : nullable_number) (r : SolveRequest) :=
  mkSolveRequest (method r) (matrix r) (constants r) p (scaling r)
    (stepByStep r) (luForm r) (initialGuess r) (stoppingCondition r)
    (maxIterations r) (tolerance r) (symbolic r).
Definition set_symbolic (s : option bool) (r : SolveRequest) :=
  mkSolveRequest (method r) (matrix r) (constants r) (precision r)
    (scaling r) (stepByStep r) (luForm r) (initialGuess r)
    (stoppingCondition r) (maxIterations r) (tolerance r) s.

(** [cell => cell === '' ? d : cell] *)
Definition orDefault (d : string) (cell : string) : string :=
  if is_empty cell then d else cell.

(** [request.initialGuess!.map(f)]: the [!] is erased by the compiler, so
    on a request without the field this is [undefined.map(...)]. *)
Definition map_initialGuess (f : string → string) : Stmt (list string) :=
  g <- read initialGuess;;
  match g with
  | Some cells => ret (map f cells)
  | None =>
      throw (TypeError "Cannot read properties of undefined (reading 'map')")
  end.

(** The three assignments under "Ensuring the default values". *)
Definition fillDefaults : Stmt unit :=
  write (λ r, set_matrix (map (map (orDefault "0")) (matrix r)) r);;
  write (λ r, set_constants (map (orDefault "0") (constants r)) r);;
  g <- map_initialGuess (orDefault "1");;
  write (set_initialGuess (Some g)).

(** [/^[a-zA-Z]$/.test(cell)]: exactly one character, a Latin letter. *)
Definition is_letter (c : ascii) : bool :=
  let n := Z.of_nat (nat_of_ascii c) in
  ((65 <=? n) && (n <=? 90)) || ((97 <=? n) && (n <=? 122)).

Definition single_letter (cell : string) : bool :=
  match cell with
  | String c EmptyString => is_letter c
  | _ => false
  end.

(** The inner [for j] loop over one row: a letter sets the flag and goes
    on, anything else clears it and leaves the loop. *)
Fixpoint scanRow (row : list string) : Stmt unit :=
  match row with
  | [] => ret tt
  | cell :: rest =>
      if single_letter cell
      then write (set_symbolic (Some true));; scanRow rest
      else write (set_symbolic (Some false))  (* break *)
  end.

(** The outer [for i] loop: every row is scanned, whatever the rows
    before it did. *)
Fixpoint scanRows (rows : list (list string)) : Stmt unit :=
  match rows with
  | [] => ret tt
  | row :: rest => scanRow row;; scanRows rest
  end.

Definition detectSymbolic : Stmt unit :=
  m <- read matrix;; scanRows m.

Definition post (path : string) : Stmt HttpPost :=
  r <- read id;; ret (mkPost (apiUrl +:+ path) (LinearBody r)).

(** The revisions of [solveSystem], oldest first. *)

(** No preparation at all: the request is posted as received. *)
Definition solveSystem_plain : Stmt HttpPost :=
  post "/solve".

(** Default filling, [precision === null] gives 5. *)
Definition solveSystem_defaults : Stmt HttpPost :=
  fillDefaults;;
  p <- read precision;;
  (if strict_eq_null p then write (set_precision (JsNum (int 5))) else ret tt);;
  post "/solve".

(** Default filling, [precision == null] gives 4, symbolic detection. *)
Definition solveSystem_symbolic (path : string) : Stmt HttpPost :=
  fillDefaults;;
  p <- read precision;;
  (if loose_eq_null p then write (set_precision (JsNum (int 4))) else ret tt);;
  detectSymbolic;;
  post path.

Inductive revision :=
| Plain           (* posts to /solve, no preparation *)
| Defaults        (* default filling, precision 5 *)
| Symbolic        (* default filling, precision 4, symbolic flag, /solve *)
| SymbolicLinear. (* the same, posting to /solve/linear *)

Definition solveSystem (rev : revision) : Stmt HttpPost :=
  match rev with
  | Plain => solveSystem_plain
  | Defaults => solveSystem_defaults
  | Symbolic => solveSystem_symbolic "/solve"
  | SymbolicLinear => solveSystem_symbolic "/solve/linear"
  end.

(** The revisions that prepare the request before posting it. *)
Definition prepares (rev : revision) : bool :=
  match rev with Plain => false | _ => true end.

Definition solveRootFinding (request : RootFindingRequest) : HttpPost :=
  mkPost (apiUrl +:+ "/solve/nonlinear") (RootBody request).

(** ** Reading a run of [solveSystem] *)

(** The request object as the HTTP client serialises it, when the call
    returned an observable; [None] when the call threw. *)
Definition transmitted (rev : revision) (r : SolveRequest)
  : option SolveRequest :=
  match solveSystem rev r with
  | (Normal p, _) => match body p with
                     | LinearBody b => Some b
                     | RootBody _ => None
                     end
  | (Throw _, _) => None
  end.

(** [cells'] is [cells] with the default [d] in place of every empty
    string and nothing else changed. *)
Definition filled (d : string) (cells cells' : list string) : Prop :=
  length cells' = length cells
  ∧ ∀ (j : nat) (cell : string), cells !! j = Some cell →
      (cell = "" → cells' !! j = Some d)
      ∧ (cell ≠ "" → cells' !! j = Some cell).

(** The flag one row leaves behind, and the flag the rows leave behind. *)
Fixpoint rowFlag (row : list string) (flag : option bool) : option bool :=
  match row with
  | [] => flag
  | cell :: rest =>
      if single_letter cell then rowFlag rest (Some true) else Some false
  end.

Definition rowsFlag (rows : list (list string)) (flag : option bool)
  : option bool :=
  foldl (λ f row, rowFlag row f) flag rows.

(** The cells the two loops look at, in the order they look at them: a
    row is read up to and including its first cell that is not a letter. *)
Fixpoint scannedOfRow (row : list string) : list string :=
  match row with
  | [] => []
  | cell :: rest =>
      if single_letter cell then cell :: scannedOfRow rest else [cell]
  end.

Definition scanned (rows : list (list string)) : list string :=
  concat (map scannedOfRow rows).

(** The request each preparing revision builds from a request that carries
    an initial guess [g]. *)
Definition prepared (rev : revision) (g : list string) (r : SolveRequest)
  : SolveRequest :=
  let m := map (map (orDefault "0")) (matrix r) in
  let p := match rev with
           | Defaults =>
               if strict_eq_null (precision r) then JsNum (int 5)
               else precision r
           | _ =>
               if loose_eq_null (precision r) then JsNum (int 4)
               else precision r
           end in
  let s := match rev with
           | Defaults => symbolic r
           | _ => rowsFlag m (symbolic r)
           end in
  mkSolveRequest (method r) m (map (orDefault "0") (constants r)) p
    (scaling r) (stepByStep r) (luForm r) (Some (map (orDefault "1") g))
    (stoppingCondition r) (maxIterations r) (tolerance r) s.

Definition endpoint (rev : revision) : string :=
  match rev with
  | SymbolicLinear => apiUrl +:+ "/solve/linear"
  | _ => apiUrl +:+ "/solve"
  end.

End ApiService.


(** * ThemeService *)

Module ThemeService.

(** The browser state the service reads and writes: [localStorage], the
    class list of [document.documentElement] (a [DOMTokenList]: ordered,
    without repetition) and what the media query
    [(prefers-color-scheme: dark)] answers. *)
Record Browser := mkBrowser {
  localStorage : gmap string string;
  classList : list string;
  prefersDark : bool
}.

(** The service itself: the current value of [darkModeSubject]. *)
Record ThemeService := mkTheme { darkModeSubject : bool }.

(** [localStorage.getItem(k)]: [None] is [null]. *)
Definition getItem (k : string) (b : Browser) : option string :=
  localStorage b !! k.

Definition setItem (k v : string) (b : Browser) : Browser :=
  mkBrowser (<[k := v]> (localStorage b)) (classList b) (prefersDark b).

(** [classList.add(tok)] and [classList.remove(tok)]. *)
Definition classList_add (tok : string) (l : list string) : list string :=
  if decide (tok ∈ l) then l else l ++ [tok].

Definition classList_remove (tok : string) (l : list string) : list string :=
  filter (λ t, t ≠ tok) l.

Definition getInitialTheme (b : Browser) : bool :=
  match getItem "darkMode" b with
  | Some savedTheme => bool_decide (savedTheme = "true")
  | None => prefersDark b
  end.

Definition applyTheme (isDark : bool) (b : Browser) : Browser :=
  if isDark
  then mkBrowser (localStorage b) (classList_add "dark" (classList b))
         (prefersDark b)
  else mkBrowser (localStorage b) (classList_remove "dark" (classList b))
         (prefersDark b).

(** Field initialiser and constructor. *)
Definition new (b : Browser) : ThemeService * Browser :=
  let this := mkTheme (getInitialTheme b) in
  (this, applyTheme (darkModeSubject this) b).

Definition toggleDarkMode (st : ThemeService * Browser)
  : ThemeService * Browser :=
  let '(this, b) := st in
  let newValue := negb (darkModeSubject this) in
  let this := mkTheme newValue in                 (* darkModeSubject.next *)
  let b := applyTheme newValue b in
  (this, setItem "darkMode" (String_of_bool newValue) b).

Definition isDarkMode (this : ThemeService) : bool := darkModeSubject this.

(** A history of [setItem] calls on an empty storage, oldest first. *)
Definition store_after (writes : list (string * string)) : gmap string string :=
  foldl (λ ls kv, <[kv.1 := kv.2]> ls) ∅ writes.

(** The value last written under [k], if any write to [k] happened. *)
Fixpoint last_written (k : string) (writes : list (string * string))
  : option string :=
  match writes with
  | [] => None
  | (k', v) :: rest =>
      match last_written k rest with
      | Some v' => Some v'
      | None => if decide (k' = k) then Some v else None
      end
  end.

End ThemeService.

(** * Step playback, shared by the two components

    Both components declare the fields [steps], [currentStep], [isPlaying],
    [speedLevel] and [simulationInterval] and carry the same five playback
    methods, copied from one to the other; they are embedded once. *)

Module Playback.

(** The timers of the window: the live interval handles with their period
    in milliseconds, and the next handle [setInterval] hands out (handles
    are positive integers). *)
Record Timers := mkTimers {
  live : list (positive * Z);
  fresh : positive
}.

Definition setInterval (period : Z) (t : Timers) : positive * Timers :=
  (fresh t, mkTimers (live t ++ [(fresh t, period)]) (Pos.succ (fresh t))).

Definition clearInterval (h : positive) (t : Timers) : Timers :=
  mkTimers (filter (λ e, e.1 ≠ h) (live t)) (fresh t).

Definition is_live (h : positive) (t : Timers) : bool :=
  bool_decide (h ∈ (live t).*1).

Record Player := mkPlayer {
  steps : list string;
  currentStep : Z;
  isPlaying : bool;
  speedLevel : Z;
  simulationInterval : option positive   (* [None] is [null] *)
}.

Definition State : Type := Player * Timers.

(** [this.steps.length] *)
Definition steps_length (p : Player) : Z := Z.of_nat (length (steps p)).

Definition set_currentStep (i : Z) (p : Player) : Player :=
  mkPlayer (steps p) i (isPlaying p) (speedLevel p) (simulationInterval p).
Definition set_isPlaying (b : bool) (p : Player) : Player :=
  mkPlayer (steps p) (currentStep p) b (speedLevel p) (simulationInterval p).
Definition set_simulationInterval (h : option positive) (p : Player) : Player :=
  mkPlayer (steps p) (currentStep p) (isPlaying p) (speedLevel p) h.
Definition set_steps (l : list string) (p : Player) : Player :=
  mkPlayer l (currentStep p) (isPlaying p) (speedLevel p) (simulationInterval p).

Definition stopSimulation (st : State) : State :=
  let '(p, t) := st in
  let p := set_isPlaying false p in
  match simulationInterval p with
  | Some h => (set_simulationInterval None p, clearInterval h t)
  | None => (p, t)
  end.

Definition previousStep (st : State) : State :=
  let '(p, t) := st in
  if 0 <? currentStep p then (set_currentStep (currentStep p - 1) p, t)
  else (p, t).

Definition nextStep (st : State) : State :=
  let '(p, t) := st in
  if currentStep p <? steps_length p - 1
  then (set_currentStep (currentStep p + 1) p, t)
  else stopSimulation (p, t).

Definition startSimulation (st : State) : State :=
  let '(p, t) := st in
  let p := if steps_length p - 1 <=? currentStep p
           then set_currentStep 0 p else p in
  let p := set_isPlaying true p in
  let interval := 2200 - speedLevel p * 200 in
  let '(h, t) := setInterval interval t in
  (set_simulationInterval (Some h) p, t).

Definition toggleSimulation (st : State) : State :=
  if isPlaying st.1 then stopSimulation st else startSimulation st.

Definition onSpeedChange (st : State) : State :=
  if isPlaying st.1 then startSimulation (stopSimulation st) else st.

(** The interval callback: the window runs it for a live handle only. *)
Definition tick (h : positive) (st : State) : State :=
  if is_live h st.2 then nextStep st else st.

(** The playback operations a user or a timer can trigger. *)
Inductive op :=
| PreviousStep
| NextStep
| ToggleSimulation
| StartSimulation
| StopSimulation
| OnSpeedChange
| Tick (h : positive).

Definition run (o : op) : State → State :=
  match o with
  | PreviousStep => previousStep
  | NextStep => nextStep
  | ToggleSimulation => toggleSimulation
  | StartSimulation => startSimulation
  | StopSimulation => stopSimulation
  | OnSpeedChange => onSpeedChange
  | Tick h => tick h
  end.

(** The current step is the index of an available step. *)
Definition in_range (p : Player) : Prop :=
  0 ≤ currentStep p < steps_length p.

End Playback.

(** * What the HTTP client hands to an error callback *)

(** The body of a failed response, as far as the handlers look at it: the
    optional [error] and [message] properties. *)
Record ErrorBody := mkErrorBody {
  body_error : option string;
  body_message : option string
}.

(** [HttpErrorResponse]: [error] is the parsed body, or [null] when there
    is none (no connection, empty reply). *)
Record HttpErrorResponse := mkHttpError { error : option ErrorBody }.

(** [error.error?.f] *)
Definition optional_chain (e : HttpErrorResponse)
    (f : ErrorBody → option string) : option string :=
  match error e with
  | Some b => f b
  | None => None
  end.

(** Truthiness of a possibly absent string: absent and [''] are falsy. *)
Definition truthy (v : option string) : bool :=
  match v with
  | Some s => negb (is_empty s)
  | None => false
  end.

(** [a || b] between possibly absent strings, and [a || 'literal']. *)
Definition or_else (a b : option string) : option string :=
  if truthy a then a else b.

Definition or_literal (a : option string) (d : string) : string :=
  match a with
  | Some s => if is_empty s then d else s
  | None => d
  end.

(** A property counts as present when it holds a non-empty string: that is
    what [||] tests. *)
Definition present (v : option string) : Prop := truthy v = true.

(** The message as the specification words it: a non-empty string, taken
    from the body's [error] or [message] property when one of them is
    present, and the fallback when neither is. *)
Definition from_error_or_message (e : HttpErrorResponse)
    (fallback s : string) : Prop :=
  s ≠ ""
  ∧ (present (optional_chain e body_error)
     ∨ present (optional_chain e body_message) →
       Some s = optional_chain e body_error
       ∨ Some s = optional_chain e body_message)
  ∧ (¬ present (optional_chain e body_error) →
     ¬ present (optional_chain e body_message) → s = fallback).

(** [Array(n).fill(v)]: a negative length is a [RangeError]. *)
Definition Array_fill {S A} (n : Z) (v : A) : Action S (list A) :=
  if n <? 0 then throw (RangeError "Invalid array length")
  else ret (replicate (Z.to_nat n) v).

(** [xs.map(f)] for a callback that may throw. *)
Fixpoint mapA {S A B} (f : A → Action S B) (xs : list A) : Action S (list B) :=
  match xs with
  | [] => ret []
  | x :: rest => y <- f x;; ys <- mapA f rest;; ret (y :: ys)
  end.

(** Run a callee that works on a state of its own (here: the request object
    it was handed); its completion is the caller's. *)
Definition call {S T A} (c : Action T A) (arg : T) : Action S A :=
  λ s, ((c arg).1, s).

(** * LinearSystemSolverComponent *)

Module LinearSystemSolver.

Record Component := mkComponent {
  numEquations : Z;
  matrix : list (list string);
  constants : list string;
  method : string;
  luForm : string;
  precision : nullable_number;
  initialGuess : list string;
  maxIterations : number;
  tolerance : number;
  useScaling : bool;
  stepByStep : bool;
  result : option ApiService.SolveResponse;
  player : Playback.Player;   (* steps, currentStep, isPlaying, ... *)
  loading : bool;
  errorMessage : string
}.

(** The component together with the window's timers and the requests that
    left through the HTTP client, oldest first. *)
Record World := mkWorld {
  this : Component;
  timers : Playback.Timers;
  sent : list ApiService.HttpPost
}.

Definition set_numEquations (n : Z) (c : Component) : Component :=
  mkComponent n (matrix c) (constants c) (method c) (luForm c) (precision c)
    (initialGuess c) (maxIterations c) (tolerance c) (useScaling c)
    (stepByStep c) (result c) (player c) (loading c) (errorMessage c).
Definition set_matrix (m : list (list string)) (c : Component) : Component :=
  mkComponent (numEquations c) m (constants c) (method c) (luForm c)
    (precision c) (initialGuess c) (maxIterations c) (tolerance c)
    (useScaling c) (stepByStep c) (result c) (player c) (loading c)
    (errorMessage c).
Definition set_constants (k : list string) (c : Component) : Component :=
  mkComponent (numEquations c) (matrix c) k (method c) (luForm c)
    (precision c) (initialGuess c) (maxIterations c) (tolerance c)
    (useScaling c) (stepByStep c) (result c) (player c) (loading c)
    (errorMessage c).
Definition set_initialGuess (g : list string) (c : Component) : Component :=
  mkComponent (numEquations c) (matrix c) (constants c) (method c) (luForm c)
    (precision c) g (maxIterations c) (tolerance c) (useScaling c)
    (stepByStep c) (result c) (player c) (loading c) (errorMessage c).
Definition set_result (r : option ApiService.SolveResponse) (c : Component)
  : Component :=
  mkComponent (numEquations c) (matrix c) (constants c) (method c) (luForm c)
    (precision c) (initialGuess c) (maxIterations c) (tolerance c)
    (useScaling c) (stepByStep c) r (player c) (loading c) (errorMessage c).
Definition set_player (p : Playback.Player) (c : Component) : Component :=
  mkComponent (numEquations c) (matrix c) (constants c) (method c) (luForm c)
    (precision c) (initialGuess c) (maxIterations c) (tolerance c)
    (useScaling c) (stepByStep c) (result c) p (loading c) (errorMessage c).
Definition set_loading (b : bool) (c : Component) : Component :=
  mkComponent (numEquations c) (matrix c) (constants c) (method c) (luForm c)
    (precision c) (initialGuess c) (maxIterations c) (tolerance c)
    (useScaling c) (stepByStep c) (result c) (player c) b (errorMessage c).
Definition set_errorMessage (m : string) (c : Component) : Component :=
  mkComponent (numEquations c) (matrix c) (constants c) (method c) (luForm c)
    (precision c) (initialGuess c) (maxIterations c) (tolerance c)
    (useScaling c) (stepByStep c) (result c) (player c) (loading c) m.

(** The field initialisers of the class. *)
Definition fields : Component :=
  mkComponent 3 [] [] "gauss-elimination" "doolittle" (JsNum (int 5)) []
    (int 50) (Decimal 1 5) false true None
    (Playback.mkPlayer [] 0 false 5 None) false "".

(** ** The shape of the form *)

Definition initializeMatrix : Action Component unit :=
  n <- read numEquations;;
  rows <- Array_fill n tt;;
  m <- mapA (λ _, n <- read numEquations;; Array_fill n "") rows;;
  write (set_matrix m);;
  n <- read numEquations;;
  k <- Array_fill n "";;
  write (set_constants k);;
  n <- read numEquations;;
  g <- Array_fill n "0";;
  write (set_initialGuess g).

Definition ngOnInit : Action Component unit := initializeMatrix.

Definition addEquation : Action Component unit :=
  write (λ c, set_numEquations (numEquations c + 1) c);;
  write (λ c, set_matrix (map (λ row, row ++ [""]) (matrix c)) c);;
  n <- read numEquations;;
  row <- Array_fill n "";;
  write (λ c, set_matrix (matrix c ++ [row]) c);;
  write (λ c, set_constants (constants c ++ [""]) c);;
  write (λ c, set_initialGuess (initialGuess c ++ ["0"]) c).

(** [xs.pop()] as a statement: the last element goes, an empty array stays
    empty. *)
Definition pop {A} (xs : list A) : list A := removelast xs.

Definition removeEquation : Action Component unit :=
  n <- read numEquations;;
  if 2 <? n then
    write (λ c, set_numEquations (numEquations c - 1) c);;
    write (λ c, set_matrix (map pop (matrix c)) c);;
    write (λ c, set_matrix (pop (matrix c)) c);;
    write (λ c, set_constants (pop (constants c)) c);;
    write (λ c, set_initialGuess (pop (initialGuess c)) c)
  else ret tt.

Definition isIterativeMethod (c : Component) : bool :=
  bool_decide (method c = "jacobi") || bool_decide (method c = "gauss-seidel").

(** ** Lifting to the world *)

Definition on_this {A} (a : Action Component A) : Action World A :=
  λ w, let '(r, c) := a (this w) in (r, mkWorld c (timers w) (sent w)).

Definition on_player (f : Playback.State → Playback.State) : Action World unit :=
  write (λ w, let '(p, t) := f (player (this w), timers w) in
              mkWorld (set_player p (this w)) t (sent w)).

Definition set_this (f : Component → Component) : Action World unit :=
  on_this (write f).

(** [observable.subscribe(...)]: the request leaves. *)
Definition subscribe (p : ApiService.HttpPost) : Action World unit :=
  write (λ w, mkWorld (this w) (timers w) (sent w ++ [p])).

(** ** Solving *)

Definition handleSolve (rev : ApiService.revision) : Action World unit :=
  set_this (set_loading true);;
  set_this (set_result None);;
  set_this (λ c, set_player (Playback.set_steps [] (player c)) c);;
  set_this (λ c, set_player (Playback.set_currentStep 0 (player c)) c);;
  on_player Playback.stopSimulation;;
  c <- read this;;
  let payload :=
    ApiService.mkSolveRequest (method c) (matrix c) (constants c)
      (precision c) (Some (useScaling c)) (Some (stepByStep c))
      (Some (luForm c)) (Some (initialGuess c)) None
      (Some (maxIterations c)) (Some (tolerance c)) None in
  observable <- call (ApiService.solveSystem rev) payload;;
  subscribe observable.

(** The [next] callback of the subscription. *)
Definition handleSolve_next (response : ApiService.SolveResponse)
  : Action World unit :=
  set_this (set_result (Some response));;
  match ApiService.res_steps response with
  | Some (s :: l) =>
      set_this (λ c, set_player (Playback.set_steps (s :: l) (player c)) c);;
      set_this (λ c, set_player (Playback.set_currentStep 0 (player c)) c)
  | _ => ret tt
  end;;
  set_this (set_loading false).

(** The [error] callback of the subscription. *)
Definition handleSolve_error (e : HttpErrorResponse) : Action World unit :=
  set_this (set_errorMessage
              (or_literal (optional_chain e body_message) "An error occurred"));;
  set_this (set_loading false).

Definition clearAll : Action World unit :=
  on_this initializeMatrix;;
  set_this (set_result None);;
  set_this (λ c, set_player (Playback.set_steps [] (player c)) c);;
  set_this (λ c, set_player (Playback.set_currentStep 0 (player c)) c);;
  set_this (set_errorMessage "");;
  on_player Playback.stopSimulation.

(** ** The invariant of the form *)

Definition square (n : nat) (m : list (list string)) : Prop :=
  length m = n ∧ Forall (λ row, length row = n) m.

Definition Inv (c : Component) : Prop :=
  2 ≤ numEquations c
  ∧ square (Z.to_nat (numEquations c)) (matrix c)
  ∧ length (constants c) = Z.to_nat (numEquations c)
  ∧ length (initialGuess c) = Z.to_nat (numEquations c).

End LinearSystemSolver.

(** * RootFinderComponent *)

Module RootFinder.

(** The fields [handleSolve] and the playback methods work on (the plot
    fields, which only [handlePlot] and [clearAll] touch, are left out). *)
Record Component := mkComponent {
  equation : string;
  method : string;
  xLower : string;
  xUpper : string;
  x0 : string;
  x1 : string;
  gEquation : string;
  precision : nullable_number;
  eps : number;
  maxIterations : number;
  stepByStep : bool;
  result : option ApiService.RootFindingResponse;
  player : Playback.Player;
  loading : bool;
  errorMessage : string
}.

Record World := mkWorld {
  this : Component;
  timers : Playback.Timers;
  sent : list ApiService.HttpPost
}.

Definition set_result (r : option ApiService.RootFindingResponse)
    (c : Component) : Component :=
  mkComponent (equation c) (method c) (xLower c) (xUpper c) (x0 c) (x1 c)
    (gEquation c) (precision c) (eps c) (maxIterations c) (stepByStep c)
    r (player c) (loading c) (errorMessage c).
Definition set_player (p : Playback.Player) (c : Component) : Component :=
  mkComponent (equation c) (method c) (xLower c) (xUpper c) (x0 c) (x1 c)
    (gEquation c) (precision c) (eps c) (maxIterations c) (stepByStep c)
    (result c) p (loading c) (errorMessage c).
Definition set_loading (b : bool) (c : Component) : Component :=
  mkComponent (equation c) (method c) (xLower c) (xUpper c) (x0 c) (x1 c)
    (gEquation c) (precision c) (eps c) (maxIterations c) (stepByStep c)
    (result c) (player c) b (errorMessage c).
Definition set_errorMessage (m : string) (c : Component) : Component :=
  mkComponent (equation c) (method c) (xLower c) (xUpper c) (x0 c) (x1 c)
    (gEquation c) (precision c) (eps c) (maxIterations c) (stepByStep c)
    (result c) (player c) (loading c) m.

(** The field initialisers followed by [ngOnInit]. *)
Definition fields : Component :=
  mkComponent "x^2 - 4" "bisection" "-5" "5" "1" "2" "" (JsNum (int 5))
    (Decimal 1 5) (int 50) true None
    (Playback.mkPlayer [] 0 false 5 None) false "".

Definition requiresInterval (c : Component) : bool :=
  bool_decide (method c = "bisection")
  || bool_decide (method c = "false-position").

Definition requiresSingleGuess (c : Component) : bool :=
  bool_decide (method c = "fixed-point")
  || bool_decide (method c = "newton")
  || bool_decide (method c = "modified-newton").

Definition requiresTwoGuesses (c : Component) : bool :=
  bool_decide (method c = "secant").

Definition set_this (f : Component → Component) : Action World unit :=
  write (λ w, mkWorld (f (this w)) (timers w) (sent w)).

Definition on_player (f : Playback.State → Playback.State) : Action World unit :=
  write (λ w, let '(p, t) := f (player (this w), timers w) in
              mkWorld (set_player p (this w)) t (sent w)).

Definition subscribe (p : ApiService.HttpPost) : Action World unit :=
  write (λ w, mkWorld (this w) (timers w) (sent w ++ [p])).

(** The payload with its method-specific parameters. *)
Definition payload_of (c : Component) : ApiService.RootFindingRequest :=
  let base xl xu a b g :=
    ApiService.mkRootFindingRequest (method c) (equation c) xl xu a b g
      (precision c) (eps c) (maxIterations c) (Some (stepByStep c)) in
  if requiresInterval c then
    base (Some (xLower c)) (Some (xUpper c)) None None None
  else if requiresSingleGuess c then
    if bool_decide (method c = "fixed-point") && negb (is_empty (gEquation c))
    then base None None (Some (x0 c)) None (Some (gEquation c))
    else base None None (Some (x0 c)) None None
  else if requiresTwoGuesses c then
    base None None (Some (x0 c)) (Some (x1 c)) None
  else base None None None None None.

Definition handleSolve : Action World unit :=
  set_this (set_loading true);;
  set_this (set_result None);;
  set_this (λ c, set_player (Playback.set_steps [] (player c)) c);;
  set_this (λ c, set_player (Playback.set_currentStep 0 (player c)) c);;
  set_this (set_errorMessage "");;
  on_player Playback.stopSimulation;;
  c <- read this;;
  subscribe (ApiService.solveRootFinding (payload_of c)).

Definition handleSolve_next (response : ApiService.RootFindingResponse)
  : Action World unit :=
  set_this (set_result (Some response));;
  match ApiService.rfr_steps response with
  | Some (s :: l) =>
      set_this (λ c, set_player (Playback.set_steps (s :: l) (player c)) c);;
      set_this (λ c, set_player (Playback.set_currentStep 0 (player c)) c)
  | _ => ret tt
  end;;
  set_this (set_loading false).

Definition handleSolve_error (e : HttpErrorResponse) : Action World unit :=
  set_this (set_errorMessage
    (or_literal (or_else (optional_chain e body_error)
                         (optional_chain e body_message))
                "An error occurred while solving"));;
  set_this (set_loading false).

End RootFinder.

(** * Sample inputs *)

Module Samples.

(** A 2-by-2 Jacobi request with empty cells in the matrix, the constants
    and the initial guess. *)
Definition request_with_gaps : ApiService.SolveRequest :=
  ApiService.mkSolveRequest "jacobi" [["2"; ""]; [""; "x"]] [""; "7"]
    (JsNum (int 5)) None None None (Some ["0"; ""]) None None None None.

Definition request_without_guess : ApiService.SolveRequest :=
  ApiService.mkSolveRequest "gauss-elimination" [["1"; "2"]; ["3"; "4"]]
    ["5"; "6"] (JsNum (int 5)) None None None None None None None None.

Definition request_null_precision : ApiService.SolveRequest :=
  ApiService.mkSolveRequest "gauss-elimination" [["1"; "2"]; ["3"; "4"]]
    ["5"; "6"] JsNull None None None (Some ["0"; "0"]) None None None None.

Definition request_digit_then_letter : ApiService.SolveRequest :=
  ApiService.mkSolveRequest "gauss-elimination" [["1"]; ["a"]] ["5"; "6"]
    (JsNum (int 5)) None None None (Some ["0"; "0"]) None None None None.

Definition request_letter_then_digit : ApiService.SolveRequest :=
  ApiService.mkSolveRequest "gauss-elimination" [["a"]; ["1"]] ["5"; "6"]
    (JsNum (int 5)) None None None (Some ["0"; "0"]) None None None None.

(** A failed response whose body carries [error] and no [message]. *)
Definition error_only : HttpErrorResponse :=
  mkHttpError (Some (mkErrorBody (Some "Matrix is singular") None)).

Definition no_timers : Playback.Timers := Playback.mkTimers [] 1%positive.

(** The two components with a first request in flight. *)
Definition linear_world : LinearSystemSolver.World :=
  LinearSystemSolver.mkWorld LinearSystemSolver.fields no_timers [].

Definition linear_world_loading : LinearSystemSolver.World :=
  LinearSystemSolver.mkWorld
    (LinearSystemSolver.set_loading true LinearSystemSolver.fields)
    no_timers [].

Definition root_world_loading : RootFinder.World :=
  RootFinder.mkWorld (RootFinder.set_loading true RootFinder.fields)
    no_timers
    [ApiService.solveRootFinding (RootFinder.payload_of RootFinder.fields)].

(** Playback on the last of three steps, with its interval running. *)
Definition player_at_end : Playback.Player :=
  Playback.mkPlayer ["R2 <- R2 - 2 R1"; "R3 <- R3 + R1"; "x = 1"] 2 true 5
    (Some 1%positive).

Definition one_timer : Playback.Timers :=
  Playback.mkTimers [(1%positive, 1200)] 2%positive.

(** A component whose form holds two equations. *)
Definition two_equations : LinearSystemSolver.Component :=
  LinearSystemSolver.set_initialGuess ["0"; "0"]
    (LinearSystemSolver.set_constants ["5"; ""]
       (LinearSystemSolver.set_matrix [["1"; "2"]; [""; "4"]]
          (LinearSystemSolver.set_numEquations 2 LinearSystemSolver.fields))).

End Samples.

(** * Plotting and clearing in the root finder *)

Module RootFinderView.

Record PlotRequest := mkPlotRequest {
  plot_method : string;
  plot_equation : string
}.

Record PlotResponse := mkPlotResponse {
  response_plotImage : string;
  response_error : option string
}.

(** What [ApiService.getPlot] asks the HTTP client to send. *)
Record PlotPost := mkPlotPost { plot_url : string; plot_body : PlotRequest }.

Definition getPlot (request : PlotRequest) : PlotPost :=
  mkPlotPost (ApiService.apiUrl +:+ "/plot") request.

(** The plot fields of [RootFinderComponent]. *)
Record PlotFields := mkPlotFields {
  plotImage : option string;     (* [None] is [null] *)
  loadingPlot : bool;
  plotErrorMessage : string
}.

(** The whole component: the part [handleSolve] works on, the plot fields
    and the plot requests that left, oldest first (kept apart from the solve
    requests: their order relative to those is not recorded). *)
Record View := mkView {
  solver : RootFinder.World;
  plot : PlotFields;
  plots : list PlotPost
}.

Definition fields : PlotFields := mkPlotFields None false "".

Definition on_solver {A} (a : Action RootFinder.World A) : Action View A :=
  λ v, let '(r, w) := a (solver v) in (r, mkView w (plot v) (plots v)).

Definition set_plot (f : PlotFields → PlotFields) : Action View unit :=
  write (λ v, mkView (solver v) (f (plot v)) (plots v)).

Definition set_plotImage (i : option string) (p : PlotFields) : PlotFields :=
  mkPlotFields i (loadingPlot p) (plotErrorMessage p).
Definition set_loadingPlot (b : bool) (p : PlotFields) : PlotFields :=
  mkPlotFields (plotImage p) b (plotErrorMessage p).
Definition set_plotErrorMessage (m : string) (p : PlotFields) : PlotFields :=
  mkPlotFields (plotImage p) (loadingPlot p) m.

Definition subscribe_plot (p : PlotPost) : Action View unit :=
  write (λ v, mkView (solver v) (plot v) (plots v ++ [p])).

Definition handlePlot : Action View unit :=
  set_plot (set_loadingPlot true);;
  set_plot (set_plotImage None);;
  set_plot (set_plotErrorMessage "");;
  c <- read (λ v, RootFinder.this (solver v));;
  subscribe_plot
    (getPlot (mkPlotRequest (RootFinder.method c) (RootFinder.equation c))).

Definition handlePlot_next (response : PlotResponse) : Action View unit :=
  set_plot (set_plotImage (Some (response_plotImage response)));;
  set_plot (set_loadingPlot false).

Definition handlePlot_error (e : HttpErrorResponse) : Action View unit :=
  set_plot (set_plotErrorMessage
              (or_literal (optional_chain e body_message)
                 "An error occurred while generating plot"));;
  set_plot (set_loadingPlot false).

Definition set_equation (x : string) (c : RootFinder.Component) :=
  RootFinder.mkComponent x (RootFinder.method c) (RootFinder.xLower c)
    (RootFinder.xUpper c) (RootFinder.x0 c) (RootFinder.x1 c)
    (RootFinder.gEquation c) (RootFinder.precision c) (RootFinder.eps c)
    (RootFinder.maxIterations c) (RootFinder.stepByStep c)
    (RootFinder.result c) (RootFinder.player c) (RootFinder.loading c)
    (RootFinder.errorMessage c).
Definition set_xLower (x : string) (c : RootFinder.Component) :=
  RootFinder.mkComponent (RootFinder.equation c) (RootFinder.method c) x
    (RootFinder.xUpper c) (RootFinder.x0 c) (RootFinder.x1 c)
    (RootFinder.gEquation c) (RootFinder.precision c) (RootFinder.eps c)
    (RootFinder.maxIterations c) (RootFinder.stepByStep c)
    (RootFinder.result c) (RootFinder.player c) (RootFinder.loading c)
    (RootFinder.errorMessage c).
Definition set_xUpper (x : string) (c : RootFinder.Component) :=
  RootFinder.mkComponent (RootFinder.equation c) (RootFinder.method c)
    (RootFinder.xLower c) x (RootFinder.x0 c) (RootFinder.x1 c)
    (RootFinder.gEquation c) (RootFinder.precision c) (RootFinder.eps c)
    (RootFinder.maxIterations c) (RootFinder.stepByStep c)
    (RootFinder.result c) (RootFinder.player c) (RootFinder.loading c)
    (RootFinder.errorMessage c).
Definition set_x0 (x : string) (c : RootFinder.Component) :=
  RootFinder.mkComponent (RootFinder.equation c) (RootFinder.method c)
    (RootFinder.xLower c) (RootFinder.xUpper c) x (RootFinder.x1 c)
    (RootFinder.gEquation c) (RootFinder.precision c) (RootFinder.eps c)
    (RootFinder.maxIterations c) (RootFinder.stepByStep c)
    (RootFinder.result c) (RootFinder.player c) (RootFinder.loading c)
    (RootFinder.errorMessage c).
Definition set_x1 (x : string) (c : RootFinder.Component) :=
  RootFinder.mkComponent (RootFinder.equation c) (RootFinder.method c)
    (RootFinder.xLower c) (RootFinder.xUpper c) (RootFinder.x0 c) x
    (RootFinder.gEquation c) (RootFinder.precision c) (RootFinder.eps c)
    (RootFinder.maxIterations c) (RootFinder.stepByStep c)
    (RootFinder.result c) (RootFinder.player c) (RootFinder.loading c)
    (RootFinder.errorMessage c).

Definition set_this (f : RootFinder.Component → RootFinder.Component)
  : Action View unit :=
  on_solver (RootFinder.set_this f).

Definition clearAll : Action View unit :=
  set_this (set_equation "");;
  set_this (set_xLower "");;
  set_this (set_xUpper "");;
  set_this (set_x0 "");;
  set_this (set_x1 "");;
  set_this (RootFinder.set_result None);;
  set_this (λ c, RootFinder.set_player
                   (Playback.set_steps [] (RootFinder.player c)) c);;
  set_this (λ c, RootFinder.set_player
                   (Playback.set_currentStep 0 (RootFinder.player c)) c);;
  set_this (RootFinder.set_errorMessage "");;
  set_plot (set_plotImage None);;
  set_plot (set_plotErrorMessage "");;
  on_solver (RootFinder.on_player Playback.stopSimulation).

(** [ngOnDestroy], the same in both components. *)
Definition ngOnDestroy : Playback.State → Playback.State :=
  Playback.stopSimulation.

End RootFinderView.

(** * ThemeToggleComponent *)

Module ThemeToggle.

Record Component := mkComponent { isDarkMode : bool }.

(** The button with the service it is given, the browser, and whether its
    observer is attached to [darkMode$]. *)
Record App := mkApp {
  this : Component;
  service : ThemeService.ThemeService;
  browser : ThemeService.Browser;
  subscribed : bool
}.

(** The field initialiser. *)
Definition fields : Component := mkComponent false.

(** The observer [isDark => this.isDarkMode = isDark]. *)
Definition observe (isDark : bool) (c : Component) : Component :=
  mkComponent isDark.

(** [darkMode$.subscribe(...)]: a behaviour subject hands its current value
    to a new observer at once. *)
Definition ngOnInit (a : App) : App :=
  mkApp (observe (ThemeService.darkModeSubject (service a)) (this a))
    (service a) (browser a) true.

(** [themeService.toggleDarkMode()]; the [next] in it reaches the observer
    when one is attached. *)
Definition toggleTheme (a : App) : App :=
  let '(svc, b) := ThemeService.toggleDarkMode (service a, browser a) in
  let c := if subscribed a
           then observe (ThemeService.darkModeSubject svc) (this a)
           else this a in
  mkApp c svc b (subscribed a).

(** The page as it comes up: the service is constructed, then the button
    is initialised. *)
Definition load (b : ThemeService.Browser) : App :=
  let '(svc, b) := ThemeService.new b in
  ngOnInit (mkApp fields svc b false).

End ThemeToggle.

(** * Reading the state of the timers and of a matrix *)

Module Reading.

(** The handles of the live intervals. *)
Definition live_handles (t : Playback.Timers) : list positive :=
  (Playback.live t).*1.

(** The player holds the only live interval, or none is live; it plays
    exactly when it holds one; handles still to be handed out are new. *)
Definition tidy (st : Playback.State) : Prop :=
  live_handles st.2
  = match Playback.simulationInterval st.1 with
    | Some h => [h]
    | None => []
    end
  ∧ (Playback.isPlaying st.1 = true
     ↔ is_Some (Playback.simulationInterval st.1))
  ∧ Forall (λ h, (h < Playback.fresh st.2)%positive) (live_handles st.2).

(** The operations a template can reach without starting twice. *)
Definition guarded (o : Playback.op) : Prop :=
  o ≠ Playback.StartSimulation.

(** The object literal [handleSolve] of the linear-system component
    builds from the form. *)
Definition linear_payload (c : LinearSystemSolver.Component)
  : ApiService.SolveRequest :=
  ApiService.mkSolveRequest (LinearSystemSolver.method c)
    (LinearSystemSolver.matrix c) (LinearSystemSolver.constants c)
    (LinearSystemSolver.precision c) (Some (LinearSystemSolver.useScaling c))
    (Some (LinearSystemSolver.stepByStep c))
    (Some (LinearSystemSolver.luForm c))
    (Some (LinearSystemSolver.initialGuess c)) None
    (Some (LinearSystemSolver.maxIterations c))
    (Some (LinearSystemSolver.tolerance c)) None.

(** The form as the user filled it in: everything [handleSolve] must not
    disturb. *)
Definition same_form (c c' : LinearSystemSolver.Component) : Prop :=
  LinearSystemSolver.numEquations c' = LinearSystemSolver.numEquations c
  ∧ LinearSystemSolver.matrix c' = LinearSystemSolver.matrix c
  ∧ LinearSystemSolver.constants c' = LinearSystemSolver.constants c
  ∧ LinearSystemSolver.initialGuess c' = LinearSystemSolver.initialGuess c
  ∧ linear_payload c' = linear_payload c.

(** Running one action after another, for stating what a sequence of user
    actions and callbacks leaves. *)
Definition then_ {S} (a b : Action S unit) : Action S unit := a;; b.

(** [matrix[i][j]] *)
Definition cell_at (m : list (list string)) (i j : nat) : option string :=
  m !! i ≫= (λ row, row !! j).

(** The last row that has a cell. *)
Definition last_nonempty_row (rows : list (list string))
  : option (list string) :=
  last (filter (λ row, row ≠ []) rows).

End Reading.

(** * More sample inputs *)

Module MoreSamples.

(** Playback on the first of three steps, with its interval running. *)
Definition player_at_start : Playback.Player :=
  Playback.mkPlayer ["R2 <- R2 - 2 R1"; "R3 <- R3 + R1"; "x = 1"] 0 true 5
    (Some 1%positive).

(** A root finder set to fixed-point iteration with a g(x) entered. *)
Definition fixed_point_component : RootFinder.Component :=
  RootFinder.mkComponent "x^2 - 4" "fixed-point" "-5" "5" "1" "2" "sqrt(4)"
    (JsNum (int 5)) (Decimal 1 5) (int 50) true None
    (Playback.mkPlayer [] 0 false 5 None) false "".

Definition fixed_point_view : RootFinderView.View :=
  RootFinderView.mkView
    (RootFinder.mkWorld fixed_point_component Samples.no_timers [])
    RootFinderView.fields [].

(** A failed response whose body carries [message] and [error]. *)
Definition error_and_message : HttpErrorResponse :=
  mkHttpError (Some (mkErrorBody (Some "Bad Request")
                       (Some "Matrix is singular"))).

Definition sample_response : ApiService.SolveResponse :=
  ApiService.mkSolveResponse (Some ["1"; "2"]) "3 ms" None
    (Some ["pivot"; "back-substitute"]) None None.

Definition sample_root_response : ApiService.RootFindingResponse :=
  ApiService.mkRootFindingResponse (Some (int 2)) (Some (int 7)) None None
    "1 ms" None None None None.

End MoreSamples.

(** * The methods of the two components besides solving *)

Module Methods.

(** Every method of [LinearSystemSolverComponent] that changes state, apart
    from [handleSolve] and the two callbacks of its subscription
    ([isIterativeMethod] only reads). *)
Inductive linear_method :=
| L_ngOnInit
| L_ngOnDestroy
| L_initializeMatrix
| L_addEquation
| L_removeEquation
| L_clearAll
| L_playback (o : Playback.op).

Definition run_linear (m : linear_method)
  : Action LinearSystemSolver.World unit :=
  match m with
  | L_ngOnInit => LinearSystemSolver.on_this LinearSystemSolver.ngOnInit
  | L_ngOnDestroy => LinearSystemSolver.on_player RootFinderView.ngOnDestroy
  | L_initializeMatrix =>
      LinearSystemSolver.on_this LinearSystemSolver.initializeMatrix
  | L_addEquation => LinearSystemSolver.on_this LinearSystemSolver.addEquation
  | L_removeEquation =>
      LinearSystemSolver.on_this LinearSystemSolver.removeEquation
  | L_clearAll => LinearSystemSolver.clearAll
  | L_playback o => LinearSystemSolver.on_player (Playback.run o)
  end.

(** [ngOnInit] of the root finder: the example equation and its bounds and
    guesses. *)
Definition root_ngOnInit : Action RootFinderView.View unit :=
  RootFinderView.set_this (RootFinderView.set_equation "x^2 - 4");;
  RootFinderView.set_this (RootFinderView.set_xLower "-5");;
  RootFinderView.set_this (RootFinderView.set_xUpper "5");;
  RootFinderView.set_this (RootFinderView.set_x0 "1");;
  RootFinderView.set_this (RootFinderView.set_x1 "2").

(** Every method of [RootFinderComponent] that changes state, apart from
    [handleSolve] and the two callbacks of its subscription (the three
    [requires...] methods only read). *)
Inductive root_method :=
| R_ngOnInit
| R_ngOnDestroy
| R_handlePlot
| R_handlePlot_next (response : RootFinderView.PlotResponse)
| R_handlePlot_error (e : HttpErrorResponse)
| R_clearAll
| R_playback (o : Playback.op).

Definition run_root (m : root_method) : Action RootFinderView.View unit :=
  match m with
  | R_ngOnInit => root_ngOnInit
  | R_ngOnDestroy =>
      RootFinderView.on_solver
        (RootFinder.on_player RootFinderView.ngOnDestroy)
  | R_handlePlot => RootFinderView.handlePlot
  | R_handlePlot_next response => RootFinderView.handlePlot_next response
  | R_handlePlot_error e => RootFinderView.handlePlot_error e
  | R_clearAll => RootFinderView.clearAll
  | R_playback o =>
      RootFinderView.on_solver (RootFinder.on_player (Playback.run o))
  end.

End Methods.

(** * Facts about ApiService *)

Section ApiServiceFacts.
Import ApiService Samples.

Lemma orDefault_empty (d : string) : orDefault d "" = d.
Proof. reflexivity. Qed.

Lemma orDefault_nonempty (d cell : string) : cell ≠ "" → orDefault d cell = cell.
Proof.
  intros Hne. unfold orDefault, is_empty.
  rewrite bool_decide_eq_false_2; done.
Qed.

Lemma filled_map (d : string) (cells : list string) :
  filled d cells (map (orDefault d) cells).
Proof.
  split; [apply length_map |].
  intros j cell Hj.
  assert (map (orDefault d) cells !! j = Some (orDefault d cell)) as Hmap.
  { change (map (orDefault d) cells) with (orDefault d <$> cells).
    by rewrite list_lookup_fmap, Hj. }
  split; intros Hc; rewrite Hmap; f_equal.
  - by subst cell.
  - by apply orDefault_nonempty.
Qed.

Lemma filled_rows (d : string) (rows : list (list string)) :
  Forall2 (filled d) rows (map (map (orDefault d)) rows).
Proof.
  induction rows as [| row rows IH]; simpl; constructor; auto using filled_map.
Qed.

(** Setting a field to the value it holds changes nothing. *)
Lemma set_symbolic_same (r : SolveRequest) : set_symbolic (symbolic r) r = r.
Proof. by destruct r. Qed.

Lemma set_symbolic_twice (a b : option bool) (r : SolveRequest) :
  set_symbolic b (set_symbolic a r) = set_symbolic b r.
Proof. reflexivity. Qed.

(** The inner loop never throws and writes nothing but the flag. *)
Lemma scanRow_run (row : list string) (r : SolveRequest) :
  scanRow row r = (Normal tt, set_symbolic (rowFlag row (symbolic r)) r).
Proof.
  revert r. induction row as [| cell rest IH]; intros r; simpl.
  - unfold ret. by rewrite set_symbolic_same.
  - destruct (single_letter cell); [| reflexivity].
    unfold bind, write. by rewrite IH.
Qed.

Lemma scanRows_run (rows : list (list string)) (r : SolveRequest) :
  scanRows rows r = (Normal tt, set_symbolic (rowsFlag rows (symbolic r)) r).
Proof.
  revert r. induction rows as [| row rest IH]; intros r; simpl.
  - unfold ret, rowsFlag. simpl. by rewrite set_symbolic_same.
  - unfold bind. rewrite scanRow_run, IH. reflexivity.
Qed.

Lemma solveSystem_with_guess (rev : revision) (r : SolveRequest)
    (g : list string) :
  prepares rev = true → initialGuess r = Some g →
  solveSystem rev r
  = (Normal (mkPost (endpoint rev) (LinearBody (prepared rev g r))),
     prepared rev g r).
Proof.
  intros Hrev Hg. destruct r as [me m k p sc st lu ig sp mi to sy].
  simpl in Hg. subst ig.
  destruct rev; [discriminate | | |];
    unfold solveSystem, solveSystem_defaults, solveSystem_symbolic,
      fillDefaults, map_initialGuess, detectSymbolic, post, prepared,
      bind, read, write, ret; simpl.
  - by destruct p.
  - destruct p; simpl; rewrite scanRows_run; reflexivity.
  - destruct p; simpl; rewrite scanRows_run; reflexivity.
Qed.

Lemma solveSystem_without_guess (rev : revision) (r : SolveRequest) :
  prepares rev = true → initialGuess r = None →
  solveSystem rev r
  = (Throw (TypeError "Cannot read properties of undefined (reading 'map')"),
     set_constants (map (orDefault "0") (constants r))
       (set_matrix (map (map (orDefault "0")) (matrix r)) r)).
Proof.
  intros Hrev Hg. destruct r as [me m k p sc st lu ig sp mi to sy].
  simpl in Hg. subst ig.
  destruct rev; [discriminate | | |]; reflexivity.
Qed.

(** C1: in the revisions of [solveSystem] that prepare the request, a request
    that carries an initial guess is always posted, and whatever is posted
    is the request object with every empty cell of the matrix and of the
    constants replaced by "0", every empty cell of the initial guess
    replaced by "1", and every other cell as it was. *)
Theorem solveSystem_fills_empty_cells (rev : revision) (r : SolveRequest) :
  prepares rev = true →
  (∀ g, initialGuess r = Some g → is_Some (transmitted rev r))
  ∧ (∀ p r', solveSystem rev r = (Normal p, r') →
       body p = LinearBody r'
       ∧ Forall2 (filled "0") (matrix r) (matrix r')
       ∧ filled "0" (constants r) (constants r')
       ∧ ∃ g g', initialGuess r = Some g ∧ initialGuess r' = Some g'
                 ∧ filled "1" g g').
Proof.
  intros Hrev. split.
  - intros g Hg. unfold transmitted.
    rewrite (solveSystem_with_guess rev r g Hrev Hg). simpl. eauto.
  - intros p r' Hrun. destruct (initialGuess r) as [g |] eqn:Hg.
    + rewrite (solveSystem_with_guess rev r g Hrev Hg) in Hrun.
      injection Hrun as <- <-. simpl.
      split; [reflexivity |].
      split; [apply filled_rows |].
      split; [apply filled_map |].
      exists g, (map (orDefault "1") g). auto using filled_map.
    + rewrite (solveSystem_without_guess rev r Hrev Hg) in Hrun.
      discriminate.
Qed.

Lemma solveSystem_fills_empty_cells_witness :
  prepares SymbolicLinear = true
  ∧ is_Some (transmitted SymbolicLinear request_with_gaps)
  ∧ ∀ p r', solveSystem SymbolicLinear request_with_gaps = (Normal p, r') →
      body p = LinearBody r'
      ∧ Forall2 (filled "0") [["2"; ""]; [""; "x"]] (matrix r')
      ∧ filled "0" [""; "7"] (constants r')
      ∧ ∃ g g', Some ["0"; ""] = Some g ∧ initialGuess r' = Some g'
                ∧ filled "1" g g'.
Proof.
  split; [reflexivity |].
  pose proof (solveSystem_fills_empty_cells SymbolicLinear request_with_gaps
                eq_refl) as [Hsent Hcells].
  split; [exact (Hsent _ eq_refl) | exact Hcells].
Defined.

(** C9: the preparing revisions read [initialGuess] without a test: on a
    request that has no initial guess the call throws a [TypeError] and no
    observable (hence no HTTP request) comes out of it; and a call that does
    return one was given an initial guess. *)
Theorem solveSystem_needs_initialGuess (rev : revision) (r : SolveRequest) :
  prepares rev = true →
  (initialGuess r = None →
     (∃ msg r', solveSystem rev r = (Throw (TypeError msg), r'))
     ∧ transmitted rev r = None)
  ∧ (is_Some (transmitted rev r) → is_Some (initialGuess r)).
Proof.
  intros Hrev. split.
  - intros Hg. unfold transmitted.
    rewrite (solveSystem_without_guess rev r Hrev Hg). eauto.
  - intros Hsent. destruct (initialGuess r) as [g |] eqn:Hg; [eauto |].
    unfold transmitted in Hsent.
    rewrite (solveSystem_without_guess rev r Hrev Hg) in Hsent.
    by destruct Hsent.
Qed.

Lemma solveSystem_needs_initialGuess_witness :
  prepares Defaults = true
  ∧ initialGuess request_without_guess = None
  ∧ (∃ msg r', solveSystem Defaults request_without_guess
               = (Throw (TypeError msg), r'))
  ∧ transmitted Defaults request_without_guess = None.
Proof.
  split; [reflexivity |]. split; [reflexivity |].
  exact (proj1 (solveSystem_needs_initialGuess Defaults request_without_guess
                  eq_refl) eq_refl).
Defined.

(** ** The default precision *)

(** C5: a request (carrying an initial guess) whose precision is missing,
    that is [null], which is what the required field holds when the
    form's numeric input is empty, goes out with a default precision: 4
    from the two revisions that test [== null] and 5 from the revision
    that tests [=== null]; a request that carries a number goes out with
    that number, from all of them. *)
Theorem solveSystem_default_precision (r : SolveRequest) (g : list string) :
  initialGuess r = Some g →
  ∃ r4 r4' r5,
    transmitted Symbolic r = Some r4
    ∧ transmitted SymbolicLinear r = Some r4'
    ∧ transmitted Defaults r = Some r5
    ∧ (precision r = JsNull →
         precision r4 = JsNum (int 4)
         ∧ precision r4' = JsNum (int 4)
         ∧ precision r5 = JsNum (int 5))
    ∧ (∀ n, precision r = JsNum n →
         precision r4 = JsNum n
         ∧ precision r4' = JsNum n
         ∧ precision r5 = JsNum n).
Proof.
  intros Hg.
  exists (prepared Symbolic g r), (prepared SymbolicLinear g r),
    (prepared Defaults g r).
  unfold transmitted.
  rewrite !(solveSystem_with_guess _ r g) by done.
  repeat split; simpl; try reflexivity;
    match goal with H : precision r = _ |- _ => by rewrite H end.
Qed.

Lemma solveSystem_default_precision_witness :
  initialGuess request_null_precision = Some ["0"; "0"]
  ∧ precision request_null_precision = JsNull
  ∧ ∃ r4 r4' r5,
      transmitted Symbolic request_null_precision = Some r4
      ∧ transmitted SymbolicLinear request_null_precision = Some r4'
      ∧ transmitted Defaults request_null_precision = Some r5
      ∧ precision r4 = JsNum (int 4)
      ∧ precision r4' = JsNum (int 4)
      ∧ precision r5 = JsNum (int 5).
Proof.
  split; [reflexivity |]. split; [reflexivity |].
  destruct (solveSystem_default_precision request_null_precision ["0"; "0"]
              eq_refl) as (r4 & r4' & r5 & H4 & H4' & H5 & Hnull & _).
  exists r4, r4', r5.
  split; [exact H4 |]. split; [exact H4' |]. split; [exact H5 |].
  exact (Hnull eq_refl).
Defined.

(** Outside the declared type: were the precision property absent
    altogether, the revisions that test [== null] would still fill in 4,
    and the revision that tests [=== null] would pass the request on
    without a precision. *)
Lemma solveSystem_absent_precision (r : SolveRequest) (g : list string) :
  initialGuess r = Some g → precision r = JsUndefined →
  ∃ r4 r5,
    transmitted Symbolic r = Some r4
    ∧ transmitted Defaults r = Some r5
    ∧ precision r4 = JsNum (int 4)
    ∧ precision r5 = JsUndefined.
Proof.
  intros Hg Hp. exists (prepared Symbolic g r), (prepared Defaults g r).
  unfold transmitted.
  rewrite !(solveSystem_with_guess _ r g) by done.
  repeat split; simpl; by rewrite Hp.
Qed.

(** ** The symbolic flag *)

Lemma rowFlag_cons (cell : string) (rest : list string) (flag : option bool) :
  rowFlag (cell :: rest) flag = Some (forallb single_letter (cell :: rest)).
Proof.
  revert cell flag. induction rest as [| c rest IH]; intros cell flag; simpl.
  - by destruct (single_letter cell).
  - destruct (single_letter cell); [| reflexivity].
    simpl in IH. by rewrite IH.
Qed.

Lemma rowsFlag_app (rows : list (list string)) (row : list string)
    (flag : option bool) :
  rowsFlag (rows ++ [row]) flag = rowFlag row (rowsFlag rows flag).
Proof. unfold rowsFlag. by rewrite foldl_app. Qed.

(** What the two loops leave in the flag is decided by the last row alone
    when that row has a cell: the flag says whether that row is all
    letters, whatever the rows before it hold. *)
Lemma rowsFlag_last_row (rows : list (list string)) (cell : string)
    (rest : list string) (flag : option bool) :
  rowsFlag (rows ++ [cell :: rest]) flag
  = Some (forallb single_letter (cell :: rest)).
Proof. by rewrite rowsFlag_app, rowFlag_cons. Qed.

(** Within one row the flag is set only while every cell read so far in
    that row is a letter. *)
Lemma rowFlag_true_letters (row : list string) (flag : option bool) :
  row ≠ [] → rowFlag row flag = Some true →
  Forall (λ cell, single_letter cell = true) row.
Proof.
  destruct row as [| cell rest]; [done |]. intros _.
  rewrite rowFlag_cons. intros Heq.
  assert (forallb single_letter (cell :: rest) = true) as Hall by congruence.
  rewrite forallb_forall in Hall.
  apply Forall_forall. intros c Hc. apply Hall. by apply list_elem_of_In.
Qed.

(** The cells of a row that the inner loop reads decide its flag: it is
    whether the last cell read is a letter. *)
Lemma rowFlag_scanned (row : list string) (flag : option bool) :
  rowFlag row flag
  = match last (scannedOfRow row) with
    | Some cell => Some (single_letter cell)
    | None => flag
    end.
Proof.
  revert flag. induction row as [| cell rest IH]; intros flag; simpl.
  - reflexivity.
  - destruct (single_letter cell) eqn:Hcell; simpl.
    + rewrite IH, last_cons.
      destruct (last (scannedOfRow rest)); [reflexivity | by rewrite Hcell].
    + by rewrite Hcell.
Qed.

(** C2: on the matrix [["1"], ["a"]] the request goes out flagged symbolic
    although the loops have read the cell "1", which is not a letter; with
    the same two rows in the other order it goes out not flagged. *)
Theorem symbolic_flag_follows_last_row :
  (∃ r', transmitted Symbolic request_digit_then_letter = Some r'
         ∧ symbolic r' = Some true
         ∧ scanned (matrix r') = ["1"; "a"]
         ∧ single_letter "1" = false)
  ∧ (∃ r', transmitted Symbolic request_letter_then_digit = Some r'
           ∧ symbolic r' = Some false)
  ∧ matrix request_digit_then_letter
    = reverse (matrix request_letter_then_digit).
Proof.
  split; [| split].
  - eexists. split; [reflexivity |]. by vm_compute.
  - eexists. split; [reflexivity |]. by vm_compute.
  - reflexivity.
Qed.

End ApiServiceFacts.

(** * Facts about ThemeService *)

Section ThemeServiceFacts.
Import ThemeService.

Lemma store_after_lookup (k : string) (writes : list (string * string))
    (ls : gmap string string) :
  foldl (λ ls kv, <[kv.1 := kv.2]> ls) ls writes !! k
  = match last_written k writes with
    | Some v => Some v
    | None => ls !! k
    end.
Proof.
  revert ls. induction writes as [| [k' v] rest IH]; intros ls; simpl.
  - reflexivity.
  - rewrite IH. destruct (last_written k rest) as [v' |]; [reflexivity |].
    destruct (decide (k' = k)) as [-> | Hne].
    + apply lookup_insert_eq.
    + by apply lookup_insert_ne.
Qed.

Lemma classList_add_elem (tok t : string) (l : list string) :
  t ∈ classList_add tok l ↔ t = tok ∨ t ∈ l.
Proof.
  unfold classList_add. destruct (decide (tok ∈ l)) as [Hin | Hnotin].
  - split; [auto |]. intros [-> | H]; done.
  - rewrite elem_of_app, list_elem_of_singleton. tauto.
Qed.

Lemma classList_remove_elem (tok t : string) (l : list string) :
  t ∈ classList_remove tok l ↔ t ≠ tok ∧ t ∈ l.
Proof. unfold classList_remove. by rewrite list_elem_of_filter. Qed.

Lemma applyTheme_dark (isDark : bool) (b : Browser) :
  "dark" ∈ classList (applyTheme isDark b) ↔ isDark = true.
Proof.
  destruct isDark; simpl.
  - rewrite classList_add_elem. split; auto.
  - rewrite classList_remove_elem. split; [intros [? _]; done | done].
Qed.

Lemma applyTheme_others (isDark : bool) (b : Browser) (tok : string) :
  tok ≠ "dark" →
  tok ∈ classList (applyTheme isDark b) ↔ tok ∈ classList b.
Proof.
  intros Hne. destruct isDark; simpl.
  - rewrite classList_add_elem. split; [intros [? | ?]; done | auto].
  - rewrite classList_remove_elem. split; [by intros [_ ?] | auto].
Qed.

Lemma String_of_bool_true (v : bool) :
  bool_decide (String_of_bool v = "true") = v.
Proof. by destruct v. Qed.

(** C6: whatever [localStorage] holds, the flag computed at load is the
    string stored under "darkMode" compared with "true", and the
    operating system's preference when nothing is stored there; after any
    history of writes it is the last value written under the key, and after
    a toggle it is the boolean the toggle wrote. *)
Theorem getInitialTheme_last_written :
  (∀ b v, getItem "darkMode" b = Some v →
     getInitialTheme b = bool_decide (v = "true"))
  ∧ (∀ b, getItem "darkMode" b = None → getInitialTheme b = prefersDark b)
  ∧ (∀ writes classes os,
       getInitialTheme (mkBrowser (store_after writes) classes os)
       = match last_written "darkMode" writes with
         | Some v => bool_decide (v = "true")
         | None => os
         end)
  ∧ (∀ this b,
       getInitialTheme (toggleDarkMode (this, b)).2
       = negb (darkModeSubject this)).
Proof.
  split; [| split; [| split]].
  - intros b v Hv. unfold getInitialTheme. by rewrite Hv.
  - intros b Hv. unfold getInitialTheme. by rewrite Hv.
  - intros writes classes os. unfold getInitialTheme, getItem, store_after.
    simpl. rewrite store_after_lookup, lookup_empty.
    by destruct (last_written "darkMode" writes).
  - intros this b. unfold getInitialTheme, getItem, toggleDarkMode, setItem.
    simpl. rewrite lookup_insert_eq. apply String_of_bool_true.
Qed.

Lemma getInitialTheme_last_written_witness :
  getInitialTheme (mkBrowser {["darkMode" := "false"]} [] true) = false
  ∧ getInitialTheme (mkBrowser {["lang" := "en"]} [] true) = true
  ∧ getInitialTheme
      (mkBrowser (store_after [("darkMode", "true"); ("darkMode", "false");
                               ("lang", "en")]) [] true) = false.
Proof.
  destruct getInitialTheme_last_written as (Hsome & Hnone & Hlast & _).
  split; [| split].
  - exact (Hsome (mkBrowser {["darkMode" := "false"]} [] true) "false"
             eq_refl).
  - exact (Hnone (mkBrowser {["lang" := "en"]} [] true) eq_refl).
  - exact (Hlast [("darkMode", "true"); ("darkMode", "false"); ("lang", "en")]
             [] true).
Defined.

(** C7: from any state, [toggleDarkMode] stores the string of the
    opposite boolean under "darkMode", makes that boolean the current
    value of the service, and leaves the class "dark" on the root
    element exactly when that boolean is true; the other classes and the
    other stored keys are as before. *)
Theorem toggleDarkMode_writes_opposite (this : ThemeService) (b : Browser) :
  let newValue := negb (darkModeSubject this) in
  let st' := toggleDarkMode (this, b) in
  getItem "darkMode" st'.2 = Some (String_of_bool newValue)
  ∧ darkModeSubject st'.1 = newValue
  ∧ ("dark" ∈ classList st'.2 ↔ newValue = true)
  ∧ (∀ tok, tok ≠ "dark" → tok ∈ classList st'.2 ↔ tok ∈ classList b)
  ∧ (∀ k, k ≠ "darkMode" → getItem k st'.2 = getItem k b).
Proof.
  intros newValue st'. subst st'. unfold toggleDarkMode, getItem, setItem.
  simpl. fold newValue.
  split; [apply lookup_insert_eq |].
  split; [reflexivity |].
  split; [apply applyTheme_dark |].
  split; [intros tok Hne; by apply applyTheme_others |].
  intros k Hne. rewrite lookup_insert_ne by done. by destruct newValue.
Qed.

Lemma toggleDarkMode_writes_opposite_witness :
  let st' := toggleDarkMode (mkTheme false, mkBrowser ∅ ["app"] false) in
  getItem "darkMode" st'.2 = Some "true"
  ∧ darkModeSubject st'.1 = true
  ∧ ("dark" ∈ classList st'.2 ↔ true = true)
  ∧ (∀ tok, tok ≠ "dark" → tok ∈ classList st'.2 ↔ tok ∈ ["app"])
  ∧ (∀ k, k ≠ "darkMode" → getItem k st'.2 = None).
Proof.
  exact (toggleDarkMode_writes_opposite (mkTheme false)
           (mkBrowser ∅ ["app"] false)).
Defined.

End ThemeServiceFacts.

(** * Facts about step playback *)

Section PlaybackFacts.
Import Playback Samples.

Lemma clearInterval_not_live (h : positive) (t : Timers) :
  is_live h (clearInterval h t) = false.
Proof.
  unfold is_live, clearInterval. simpl.
  apply bool_decide_eq_false_2. intros Hin.
  apply list_elem_of_fmap in Hin as ([h' period] & Heq & Hin).
  simpl in Heq. subst h'.
  apply list_elem_of_filter in Hin as [Hne _]. by apply Hne.
Qed.

(** Stopping touches neither the steps nor the current step. *)
Lemma stopSimulation_steps (st : State) :
  steps (stopSimulation st).1 = steps st.1
  ∧ currentStep (stopSimulation st).1 = currentStep st.1.
Proof.
  destruct st as [p t]. unfold stopSimulation. simpl.
  by destruct (simulationInterval p).
Qed.

Lemma stopSimulation_stopped (p : Player) (t : Timers) :
  isPlaying (stopSimulation (p, t)).1 = false
  ∧ simulationInterval (stopSimulation (p, t)).1 = None
  ∧ ∀ h, simulationInterval p = Some h →
         is_live h (stopSimulation (p, t)).2 = false.
Proof.
  unfold stopSimulation. simpl.
  destruct (simulationInterval p) as [h |] eqn:Hh; simpl.
  - repeat split. intros h' [= <-]. apply clearInterval_not_live.
  - repeat split; [done |]. intros h' [=].
Qed.

Lemma stopSimulation_in_range (st : State) :
  in_range st.1 →
  in_range (stopSimulation st).1 ∧ steps (stopSimulation st).1 = steps st.1.
Proof.
  intros Hr. destruct (stopSimulation_steps st) as [Hs Hc].
  unfold in_range, steps_length in *. rewrite Hs, Hc. auto.
Qed.

Lemma nextStep_in_range (st : State) :
  in_range st.1 →
  in_range (nextStep st).1 ∧ steps (nextStep st).1 = steps st.1.
Proof.
  destruct st as [p t]. intros Hr. unfold nextStep.
  destruct (Z.ltb_spec (currentStep p) (steps_length p - 1)).
  - unfold in_range, steps_length in *. simpl in *. split; [lia | reflexivity].
  - by apply stopSimulation_in_range.
Qed.

Lemma previousStep_in_range (st : State) :
  in_range st.1 →
  in_range (previousStep st).1 ∧ steps (previousStep st).1 = steps st.1.
Proof.
  destruct st as [p t]. unfold in_range, previousStep, steps_length. simpl.
  intros Hr. destruct (Z.ltb_spec 0 (currentStep p)); simpl.
  - split; [lia | reflexivity].
  - auto.
Qed.

Lemma startSimulation_in_range (st : State) :
  in_range st.1 →
  in_range (startSimulation st).1 ∧ steps (startSimulation st).1 = steps st.1.
Proof.
  destruct st as [p t]. unfold in_range, startSimulation, steps_length.
  simpl. intros Hr.
  destruct (Z.leb_spec (Z.of_nat (length (steps p)) - 1) (currentStep p)); simpl.
  - split; [lia | reflexivity].
  - auto.
Qed.

Lemma run_in_range (o : op) (st : State) :
  in_range st.1 → in_range (run o st).1 ∧ steps (run o st).1 = steps st.1.
Proof.
  intros Hr. destruct o; simpl.
  - by apply previousStep_in_range.
  - by apply nextStep_in_range.
  - unfold toggleSimulation. destruct (isPlaying st.1).
    + by apply stopSimulation_in_range.
    + by apply startSimulation_in_range.
  - by apply startSimulation_in_range.
  - by apply stopSimulation_in_range.
  - unfold onSpeedChange. destruct (isPlaying st.1); [| auto].
    destruct (stopSimulation_in_range st Hr) as [Hr' Hs'].
    destruct (startSimulation_in_range _ Hr') as [Hr'' Hs''].
    split; [done | congruence].
  - unfold tick. destruct (is_live h st.2); [| auto].
    by apply nextStep_in_range.
Qed.

Lemma runs_in_range (ops : list op) (st : State) :
  in_range st.1 →
  in_range (foldl (λ s o, run o s) st ops).1
  ∧ steps (foldl (λ s o, run o s) st ops).1 = steps st.1.
Proof.
  revert st. induction ops as [| o ops IH]; intros st Hr; simpl; [auto |].
  destruct (run_in_range o st Hr) as [Hr' Hs'].
  destruct (IH _ Hr') as [Hr'' Hs'']. split; [done | congruence].
Qed.

(** C3: with the current step on an available step, no playback operation
    and no sequence of them (timer ticks included) takes it out of the
    list of steps, which they leave as it is; [nextStep] adds one to the
    current step when it is strictly below [steps.length - 1] and does
    nothing else; at or past the last step it leaves the current step
    where it is and stops the playback: [isPlaying] is false, the handle
    is dropped and its interval is no longer live. *)
Theorem playback_never_passes_last_step (p : Player) (t : Timers) :
  (in_range p →
     ∀ ops, let st' := foldl (λ s o, run o s) (p, t) ops in
            0 ≤ currentStep st'.1 ≤ steps_length p - 1
            ∧ steps st'.1 = steps p)
  ∧ (currentStep p < steps_length p - 1 →
       nextStep (p, t) = (set_currentStep (currentStep p + 1) p, t))
  ∧ (steps_length p - 1 ≤ currentStep p →
       let st' := nextStep (p, t) in
       currentStep st'.1 = currentStep p
       ∧ steps st'.1 = steps p
       ∧ isPlaying st'.1 = false
       ∧ simulationInterval st'.1 = None
       ∧ ∀ h, simulationInterval p = Some h → is_live h st'.2 = false).
Proof.
  split; [| split].
  - intros Hr ops st'. subst st'.
    destruct (runs_in_range ops (p, t) Hr) as [Hr' Hs'].
    split; [| exact Hs'].
    unfold in_range, steps_length in *. rewrite Hs' in Hr'. simpl in *. lia.
  - intros Hlt. unfold nextStep.
    by rewrite (proj2 (Z.ltb_lt _ _) Hlt).
  - intros Hge st'. subst st'. unfold nextStep.
    rewrite (proj2 (Z.ltb_ge _ _) Hge).
    destruct (stopSimulation_steps (p, t)) as [Hs Hc].
    destruct (stopSimulation_stopped p t) as (Hplay & Hnull & Hlive).
    auto.
Qed.

Lemma playback_never_passes_last_step_witness :
  in_range player_at_end
  ∧ steps_length player_at_end - 1 ≤ currentStep player_at_end
  ∧ (∀ ops,
       let st' := foldl (λ s o, run o s) (player_at_end, one_timer) ops in
       0 ≤ currentStep st'.1 ≤ steps_length player_at_end - 1
       ∧ steps st'.1 = steps player_at_end)
  ∧ (let st' := nextStep (player_at_end, one_timer) in
     currentStep st'.1 = currentStep player_at_end
     ∧ steps st'.1 = steps player_at_end
     ∧ isPlaying st'.1 = false
     ∧ simulationInterval st'.1 = None
     ∧ ∀ h, simulationInterval player_at_end = Some h →
            is_live h st'.2 = false).
Proof.
  assert (in_range player_at_end) as Hr
    by (unfold in_range, steps_length; simpl; lia).
  assert (steps_length player_at_end - 1 ≤ currentStep player_at_end) as Hge
    by (unfold steps_length; simpl; lia).
  destruct (playback_never_passes_last_step player_at_end one_timer)
    as (Hall & _ & Hlast).
  split; [exact Hr |]. split; [exact Hge |].
  split; [exact (Hall Hr) | exact (Hlast Hge)].
Defined.

End PlaybackFacts.

(** * Facts about the error callbacks *)

Section ErrorFacts.
Import Samples.

Lemma present_nonempty (v : option string) (s : string) :
  present v → v = Some s → s ≠ "".
Proof.
  unfold present, truthy, is_empty. intros Ht ->.
  apply negb_true_iff, bool_decide_eq_false_1 in Ht. exact Ht.
Qed.

Lemma or_literal_present (v : option string) (d : string) :
  present v → Some (or_literal v d) = v.
Proof.
  unfold present, truthy, or_literal. destruct v as [s |]; [| done].
  by destruct (is_empty s).
Qed.

Lemma or_literal_absent (v : option string) (d : string) :
  ¬ present v → or_literal v d = d.
Proof.
  unfold present, truthy, or_literal. destruct v as [s |]; [| done].
  by destruct (is_empty s).
Qed.

Lemma or_literal_nonempty (v : option string) (d : string) :
  d ≠ "" → or_literal v d ≠ "".
Proof.
  intros Hd. unfold or_literal. destruct v as [s |]; [| done].
  unfold is_empty. by case_bool_decide.
Qed.

Lemma or_else_first (a b : option string) : present a → or_else a b = a.
Proof. unfold present, or_else. by intros ->. Qed.

Lemma or_else_second (a b : option string) : ¬ present a → or_else a b = b.
Proof. unfold present, or_else. by destruct (truthy a). Qed.

Lemma present_dec (v : option string) : present v ∨ ¬ present v.
Proof. unfold present. destruct (truthy v); auto. Qed.

(** The linear-system component does not read the [error] property: with
    any fallback, its message is not always the one the specification
    describes. *)
Lemma linear_handler_ignores_error_property :
  ¬ ∃ fallback, ∀ e w,
      from_error_or_message e fallback
        (LinearSystemSolver.errorMessage
           (LinearSystemSolver.this
              (LinearSystemSolver.handleSolve_error e w).2)).
Proof.
  intros (fallback & Hclaim).
  destruct (Hclaim error_only linear_world) as (_ & Htaken & _).
  destruct Htaken as [Heq | Heq]; [by left | |]; discriminate Heq.
Qed.

(** C4, amended: either error callback returns, leaves [loading] false
    and stores a non-empty message.  In the root finder it is the body's
    [error] when present, else its [message] when present, else "An error
    occurred while solving".  In the linear-system component it is the
    body's [message] when present and "An error occurred" otherwise; the
    body's [error] is not read. *)
Theorem failed_request_surfaces_message (e : HttpErrorResponse) :
  (∀ w, ∃ w',
     RootFinder.handleSolve_error e w = (Normal tt, w')
     ∧ RootFinder.loading (RootFinder.this w') = false
     ∧ from_error_or_message e "An error occurred while solving"
         (RootFinder.errorMessage (RootFinder.this w'))
     ∧ (present (optional_chain e body_error) →
          Some (RootFinder.errorMessage (RootFinder.this w'))
          = optional_chain e body_error))
  ∧ (∀ w, ∃ w',
       LinearSystemSolver.handleSolve_error e w = (Normal tt, w')
       ∧ LinearSystemSolver.loading (LinearSystemSolver.this w') = false
       ∧ LinearSystemSolver.errorMessage (LinearSystemSolver.this w') ≠ ""
       ∧ (present (optional_chain e body_message) →
            Some (LinearSystemSolver.errorMessage (LinearSystemSolver.this w'))
            = optional_chain e body_message)
       ∧ (¬ present (optional_chain e body_message) →
            LinearSystemSolver.errorMessage (LinearSystemSolver.this w')
            = "An error occurred")).
Proof.
  split.
  - intros w. eexists. split; [reflexivity |]. simpl.
    split; [reflexivity |].
    set (a := optional_chain e body_error).
    set (b := optional_chain e body_message).
    split; [split; [| split] |].
    + by apply or_literal_nonempty.
    + intros Hab. destruct (present_dec a) as [Ha | Ha].
      * left. rewrite or_else_first by done. by apply or_literal_present.
      * rewrite or_else_second by done.
        destruct (present_dec b) as [Hb | Hb].
        -- right. by apply or_literal_present.
        -- exfalso. tauto.
    + intros Ha Hb. rewrite or_else_second by done.
      by apply or_literal_absent.
    + intros Ha. rewrite or_else_first by done. by apply or_literal_present.
  - intros w. eexists. split; [reflexivity |]. simpl.
    split; [reflexivity |].
    split; [by apply or_literal_nonempty |].
    split; [apply or_literal_present | apply or_literal_absent].
Qed.

Lemma failed_request_surfaces_message_witness :
  (∃ w', LinearSystemSolver.handleSolve_error error_only linear_world
         = (Normal tt, w')
         ∧ LinearSystemSolver.loading (LinearSystemSolver.this w') = false
         ∧ LinearSystemSolver.errorMessage (LinearSystemSolver.this w')
           = "An error occurred")
  ∧ (∃ w', RootFinder.handleSolve_error error_only root_world_loading
           = (Normal tt, w')
           ∧ RootFinder.loading (RootFinder.this w') = false
           ∧ Some (RootFinder.errorMessage (RootFinder.this w'))
             = Some "Matrix is singular").
Proof.
  destruct (failed_request_surfaces_message error_only) as [Hroot Hlinear].
  split.
  - destruct (Hlinear linear_world) as (w' & Hrun & Hload & _ & _ & Habsent).
    exists w'. split; [exact Hrun |]. split; [exact Hload |].
    apply Habsent. vm_compute. discriminate.
  - destruct (Hroot root_world_loading) as (w' & Hrun & Hload & _ & Hfirst).
    exists w'. split; [exact Hrun |]. split; [exact Hload |].
    apply Hfirst. reflexivity.
Defined.

End ErrorFacts.

(** * Facts about solving *)

Section SolveFacts.
Import Samples.

Lemma solveSystem_returns (rev : ApiService.revision)
    (r : ApiService.SolveRequest) (g : list string) :
  ApiService.initialGuess r = Some g →
  ∃ p, (ApiService.solveSystem rev r).1 = Normal p.
Proof.
  intros Hg. destruct (ApiService.prepares rev) eqn:Hrev.
  - rewrite (solveSystem_with_guess rev r g Hrev Hg). eauto.
  - destruct rev; try discriminate. simpl. eauto.
Qed.

(** Called while [loading] is true, [handleSolve] does post a request, in
    the root finder and in the linear-system component alike. *)
Lemma handleSolve_posts_while_loading :
  ¬ (∀ w, RootFinder.loading (RootFinder.this w) = true →
          RootFinder.sent (RootFinder.handleSolve w).2 = RootFinder.sent w)
  ∧ ¬ (∀ rev w,
         LinearSystemSolver.loading (LinearSystemSolver.this w) = true →
         LinearSystemSolver.sent (LinearSystemSolver.handleSolve rev w).2
         = LinearSystemSolver.sent w).
Proof.
  split.
  - intros Hclaim. specialize (Hclaim root_world_loading eq_refl).
    vm_compute in Hclaim. discriminate Hclaim.
  - intros Hclaim.
    specialize (Hclaim ApiService.SymbolicLinear linear_world_loading eq_refl).
    vm_compute in Hclaim. discriminate Hclaim.
Qed.

(** [handleSolve] does not look at [loading]: every call, in either
    component, sets it to true and posts exactly one request; the [next]
    callbacks set it back to false. *)
Lemma handleSolve_posts :
  (∀ w, ∃ w',
     RootFinder.handleSolve w = (Normal tt, w')
     ∧ RootFinder.sent w'
       = RootFinder.sent w
         ++ [ApiService.solveRootFinding
               (RootFinder.payload_of (RootFinder.this w))]
     ∧ RootFinder.loading (RootFinder.this w') = true)
  ∧ (∀ rev w, ∃ p w',
       LinearSystemSolver.handleSolve rev w = (Normal tt, w')
       ∧ LinearSystemSolver.sent w' = LinearSystemSolver.sent w ++ [p]
       ∧ LinearSystemSolver.loading (LinearSystemSolver.this w') = true)
  ∧ (∀ response w,
       RootFinder.loading
         (RootFinder.this (RootFinder.handleSolve_next response w).2) = false)
  ∧ (∀ response w,
       LinearSystemSolver.loading
         (LinearSystemSolver.this
            (LinearSystemSolver.handleSolve_next response w).2) = false).
Proof.
  split; [| split; [| split]].
  - intros [c t s].
    destruct c as [eq me xl xu a0 a1 ge pr ep mi sb re
                     [st cs ip sl [h |]] lo em];
      (eexists; split; [reflexivity |]; split; reflexivity).
  - intros rev [c t s].
    unfold LinearSystemSolver.handleSolve, LinearSystemSolver.set_this,
      LinearSystemSolver.on_this, LinearSystemSolver.on_player,
      LinearSystemSolver.subscribe, call, bind, write, read.
    cbn [LinearSystemSolver.this LinearSystemSolver.timers
         LinearSystemSolver.sent fst snd].
    destruct (Playback.stopSimulation _) as [p' t'] eqn:Hstop.
    cbn [LinearSystemSolver.this LinearSystemSolver.timers
         LinearSystemSolver.sent fst snd].
    match goal with
    | |- context [ApiService.solveSystem rev ?r] =>
        destruct (solveSystem_returns rev r (LinearSystemSolver.initialGuess c)
                    eq_refl) as [p Hp]
    end.
    rewrite Hp. simpl. eauto.
  - intros response [c t s]. unfold RootFinder.handleSolve_next.
    destruct (ApiService.rfr_steps response) as [[| ? ?] |]; reflexivity.
  - intros response [c t s]. unfold LinearSystemSolver.handleSolve_next.
    destruct (ApiService.res_steps response) as [[| ? ?] |]; reflexivity.
Qed.

End SolveFacts.

(** * Facts about the shape of the linear-system form *)

Section ShapeFacts.
Import LinearSystemSolver Samples.

Lemma Array_fill_run {S A} (n : Z) (v : A) (s : S) :
  0 ≤ n → Array_fill n v s = (Normal (replicate (Z.to_nat n) v), s).
Proof.
  intros Hn. unfold Array_fill.
  by rewrite (proj2 (Z.ltb_ge _ _) Hn).
Qed.

Lemma rows_run {A} (rows : list A) (c : Component) :
  0 ≤ numEquations c →
  mapA (λ _, n <- read numEquations;; Array_fill n "") rows c
  = (Normal (replicate (length rows)
               (replicate (Z.to_nat (numEquations c)) "")), c).
Proof.
  intros Hn. induction rows as [| x rows IH]; simpl; [reflexivity |].
  unfold bind at 1. unfold bind at 1. unfold read at 1.
  rewrite Array_fill_run by done.
  unfold bind at 1. rewrite IH. reflexivity.
Qed.

Lemma initializeMatrix_run (c : Component) :
  0 ≤ numEquations c →
  let n := Z.to_nat (numEquations c) in
  initializeMatrix c
  = (Normal tt,
     set_initialGuess (replicate n "0")
       (set_constants (replicate n "")
          (set_matrix (replicate n (replicate n "")) c))).
Proof.
  intros Hn n. unfold initializeMatrix.
  unfold bind at 1. unfold read at 1.
  unfold bind at 1. rewrite Array_fill_run by done.
  unfold bind at 1. rewrite rows_run by done. rewrite length_replicate.
  unfold bind, read, write. simpl.
  rewrite !Array_fill_run by done. reflexivity.
Qed.

Lemma initializeMatrix_shape (c : Component) :
  2 ≤ numEquations c →
  ∃ c', initializeMatrix c = (Normal tt, c') ∧ Inv c'
        ∧ numEquations c' = numEquations c.
Proof.
  intros Hn. eexists. split; [apply initializeMatrix_run; lia |].
  unfold Inv, square. simpl. rewrite !length_replicate.
  repeat split; try done.
  apply Forall_replicate, length_replicate.
Qed.

Lemma length_pop {A} (xs : list A) : length (pop xs) = Nat.pred (length xs).
Proof.
  unfold pop. rewrite removelast_firstn_len, length_take. lia.
Qed.

Lemma addEquation_shape (c : Component) :
  Inv c →
  ∃ c', addEquation c = (Normal tt, c') ∧ Inv c'
        ∧ numEquations c' = numEquations c + 1.
Proof.
  intros (Hn & [Hrows Hcols] & Hk & Hg).
  unfold addEquation, bind, write, read. simpl.
  rewrite Array_fill_run by lia. eexists. split; [reflexivity |].
  assert (Z.to_nat (numEquations c + 1) = Datatypes.S (Z.to_nat (numEquations c)))
    as Hsucc by lia.
  unfold Inv, square. simpl. rewrite Hsucc.
  rewrite !length_app, length_map, Hrows, Hk, Hg. simpl.
  repeat split; try lia.
  apply Forall_app. split.
  - apply Forall_forall. intros row' Hin.
    apply list_elem_of_In, in_map_iff in Hin as (row & <- & Hin).
    rewrite Forall_forall in Hcols.
    rewrite length_app, (Hcols row) by by apply list_elem_of_In.
    simpl. lia.
  - constructor; [| constructor]. simpl. by rewrite length_replicate.
Qed.

Lemma removeEquation_shape (c : Component) :
  Inv c →
  ∃ c', removeEquation c = (Normal tt, c') ∧ Inv c'
        ∧ (numEquations c = 2 → c' = c)
        ∧ (2 < numEquations c → numEquations c' = numEquations c - 1).
Proof.
  intros (Hn & [Hrows Hcols] & Hk & Hg).
  unfold removeEquation, bind, read. simpl.
  destruct (Z.ltb_spec 2 (numEquations c)) as [Hgt | Hle].
  - unfold write. simpl. eexists. split; [reflexivity |].
    split; [| split; [lia | done]].
    assert (Z.to_nat (numEquations c - 1) = Nat.pred (Z.to_nat (numEquations c)))
      as Hpred by lia.
    unfold Inv, square. simpl. rewrite Hpred.
    rewrite !length_pop, length_map, Hrows, Hk, Hg.
    repeat split; try lia.
    unfold pop at 1. rewrite removelast_firstn_len. apply Forall_take.
    apply Forall_forall. intros row' Hin.
    apply list_elem_of_In, in_map_iff in Hin as (row & <- & Hin).
    rewrite Forall_forall in Hcols.
    by rewrite length_pop, (Hcols row) by by apply list_elem_of_In.
  - exists c. split; [reflexivity |].
    split; [by repeat split |]. split; [done | lia].
Qed.

Lemma clearAll_shape (w : World) :
  Inv (this w) →
  ∃ w', clearAll w = (Normal tt, w') ∧ Inv (this w')
        ∧ numEquations (this w') = numEquations (this w).
Proof.
  intros HInv. destruct w as [c t s]. simpl in HInv.
  destruct (initializeMatrix_shape c (proj1 HInv)) as (c' & Hrun & HInv' & Hn').
  unfold clearAll, on_this, set_this, on_this, on_player, bind, write.
  cbn [this timers sent]. rewrite Hrun.
  cbn [this timers sent].
  destruct (Playback.stopSimulation _) as [p' t'].
  eexists. split; [reflexivity |]. simpl. split; [| exact Hn'].
  by destruct c'.
Qed.

(** C10: the form keeps at least two equations, an n-by-n matrix and n
    constants and n initial guesses, n being [numEquations].
    [initializeMatrix] establishes it, as run by [ngOnInit] on the freshly
    constructed component and from any count of at least two;
    [addEquation], [removeEquation] and [clearAll] return normally and
    preserve it; [removeEquation] changes nothing when the count is two and
    takes one off above that. *)
Theorem form_shape_invariant :
  (∃ c, ngOnInit fields = (Normal tt, c) ∧ Inv c)
  ∧ (∀ c, 2 ≤ numEquations c →
       ∃ c', initializeMatrix c = (Normal tt, c') ∧ Inv c')
  ∧ (∀ c, Inv c →
       ∃ c', addEquation c = (Normal tt, c') ∧ Inv c'
             ∧ numEquations c' = numEquations c + 1)
  ∧ (∀ c, Inv c →
       ∃ c', removeEquation c = (Normal tt, c') ∧ Inv c'
             ∧ (numEquations c = 2 → c' = c)
             ∧ (2 < numEquations c → numEquations c' = numEquations c - 1))
  ∧ (∀ w, Inv (this w) →
       ∃ w', clearAll w = (Normal tt, w') ∧ Inv (this w')).
Proof.
  split; [| split; [| split; [| split]]].
  - destruct (initializeMatrix_shape fields) as (c & Hrun & HInv & _);
      [simpl; lia | eauto].
  - intros c Hn.
    destruct (initializeMatrix_shape c Hn) as (c' & Hrun & HInv & _). eauto.
  - exact addEquation_shape.
  - exact removeEquation_shape.
  - intros w HInv.
    destruct (clearAll_shape w HInv) as (w' & Hrun & HInv' & _). eauto.
Qed.

Lemma form_shape_invariant_witness :
  Inv two_equations
  ∧ (∃ c', removeEquation two_equations = (Normal tt, c') ∧ Inv c'
           ∧ c' = two_equations)
  ∧ (∃ c', addEquation two_equations = (Normal tt, c') ∧ Inv c'
           ∧ numEquations c' = 3)
  ∧ (∃ w', clearAll (mkWorld two_equations no_timers []) = (Normal tt, w')
           ∧ Inv (this w')).
Proof.
  assert (Inv two_equations) as HInv.
  { unfold Inv, square. simpl. repeat split; try lia.
    repeat constructor. }
  destruct form_shape_invariant as (_ & _ & Hadd & Hremove & Hclear).
  split; [exact HInv |]. split; [| split].
  - destruct (Hremove two_equations HInv) as (c' & Hrun & HInv' & Hsame & _).
    exists c'. split; [exact Hrun |]. split; [exact HInv' |].
    apply Hsame. reflexivity.
  - exact (Hadd two_equations HInv).
  - exact (Hclear (mkWorld two_equations no_timers []) HInv).
Defined.

End ShapeFacts.

(** * More about ApiService: what goes out, and what a failed call leaves *)

Section ApiServiceMore.
Import ApiService Reading.

Lemma orDefault_idem (d cell : string) :
  d ≠ "" → orDefault d (orDefault d cell) = orDefault d cell.
Proof.
  intros Hd. destruct (decide (cell = "")) as [-> | Hne].
  - rewrite orDefault_empty. by apply orDefault_nonempty.
  - by rewrite !(orDefault_nonempty d cell).
Qed.

Lemma orDefault_not_empty (d cell : string) : d ≠ "" → orDefault d cell ≠ "".
Proof.
  intros Hd. unfold orDefault, is_empty. by case_bool_decide.
Qed.

Lemma map_orDefault_idem (d : string) (cells : list string) :
  d ≠ "" →
  map (orDefault d) (map (orDefault d) cells) = map (orDefault d) cells.
Proof.
  intros Hd. rewrite map_map. apply map_ext. intros c.
  by apply orDefault_idem.
Qed.

Lemma rows_orDefault_idem (d : string) (rows : list (list string)) :
  d ≠ "" →
  map (map (orDefault d)) (map (map (orDefault d)) rows)
  = map (map (orDefault d)) rows.
Proof.
  intros Hd. rewrite map_map. apply map_ext. intros row.
  by apply map_orDefault_idem.
Qed.

(** The flag after the loops, read off the matrix: the last row that has a
    cell decides, and without such a row the flag is what it was. *)
Lemma rowsFlag_last_nonempty (rows : list (list string)) (flag : option bool) :
  rowsFlag rows flag
  = match last_nonempty_row rows with
    | Some row => Some (forallb single_letter row)
    | None => flag
    end.
Proof.
  unfold last_nonempty_row.
  induction rows as [| row rows IH] using rev_ind; [reflexivity |].
  rewrite rowsFlag_app, filter_app.
  destruct row as [| cell rest].
  - simpl. rewrite filter_cons_False by (intros H; by apply H).
    rewrite filter_nil, app_nil_r. exact IH.
  - rewrite rowFlag_cons. rewrite filter_cons_True by done.
    rewrite filter_nil. by rewrite last_snoc.
Qed.

Lemma rowsFlag_idem (rows : list (list string)) (flag : option bool) :
  rowsFlag rows (rowsFlag rows flag) = rowsFlag rows flag.
Proof.
  rewrite !rowsFlag_last_nonempty.
  by destruct (last_nonempty_row rows).
Qed.

Lemma transmitted_plain (r : SolveRequest) : transmitted Plain r = Some r.
Proof. reflexivity. Qed.

Lemma transmitted_prepared (rev : revision) (r : SolveRequest)
    (g : list string) :
  prepares rev = true → initialGuess r = Some g →
  transmitted rev r = Some (prepared rev g r).
Proof.
  intros Hrev Hg. unfold transmitted.
  by rewrite (solveSystem_with_guess rev r g Hrev Hg).
Qed.

Lemma transmitted_inv (rev : revision) (r r' : SolveRequest) :
  prepares rev = true → transmitted rev r = Some r' →
  ∃ g, initialGuess r = Some g ∧ r' = prepared rev g r.
Proof.
  intros Hrev Hsent. destruct (initialGuess r) as [g |] eqn:Hg.
  - rewrite (transmitted_prepared rev r g Hrev Hg) in Hsent.
    injection Hsent as <-. eauto.
  - unfold transmitted in Hsent.
    by rewrite (solveSystem_without_guess rev r Hrev Hg) in Hsent.
Qed.

Lemma prepared_again (rev : revision) (r : SolveRequest) (g : list string) :
  prepares rev = true →
  prepared rev (map (orDefault "1") g) (prepared rev g r) = prepared rev g r.
Proof.
  intros Hrev. unfold prepared. simpl.
  rewrite rows_orDefault_idem, !map_orDefault_idem by done.
  destruct rev; [discriminate | | |]; simpl.
  - by destruct (precision r).
  - rewrite rowsFlag_idem. by destruct (precision r).
  - rewrite rowsFlag_idem. by destruct (precision r).
Qed.

(** X1: Sending again what was sent sends the same thing: in every revision,
    [solveSystem] applied to the request it transmitted transmits that
    request unchanged. *)
Theorem solveSystem_resend (rev : revision) (r r' : SolveRequest) :
  transmitted rev r = Some r' → transmitted rev r' = Some r'.
Proof.
  intros Hsent. destruct (prepares rev) eqn:Hrev.
  - destruct (transmitted_inv rev r r' Hrev Hsent) as (g & Hg & ->).
    rewrite (transmitted_prepared rev _ (map (orDefault "1") g) Hrev)
      by reflexivity.
    by rewrite prepared_again.
  - destruct rev; try discriminate. apply transmitted_plain.
Qed.

Lemma solveSystem_resend_witness :
  transmitted Symbolic Samples.request_with_gaps
  = Some (prepared Symbolic ["0"; ""] Samples.request_with_gaps)
  ∧ transmitted Symbolic (prepared Symbolic ["0"; ""] Samples.request_with_gaps)
    = Some (prepared Symbolic ["0"; ""] Samples.request_with_gaps).
Proof.
  split; [reflexivity |].
  exact (solveSystem_resend Symbolic Samples.request_with_gaps _ eq_refl).
Defined.

(** X2: In the revisions with the symbolic loops the flag that goes out is
    decided by the last row of the transmitted matrix that has a cell: it
    says whether that row is all single letters.  A matrix without any cell
    leaves the flag as the caller set it.  The other revisions never touch
    the flag. *)
Theorem symbolic_flag_last_nonempty_row (rev : revision) (r r' : SolveRequest) :
  transmitted rev r = Some r' →
  (rev = Symbolic ∨ rev = SymbolicLinear →
     symbolic r'
     = match last_nonempty_row (matrix r') with
       | Some row => Some (forallb single_letter row)
       | None => symbolic r
       end)
  ∧ (rev = Plain ∨ rev = Defaults → symbolic r' = symbolic r).
Proof.
  intros Hsent. split.
  - intros Hrev.
    destruct (transmitted_inv rev r r') as (g & Hg & ->);
      [by destruct Hrev as [-> | ->] | done |].
    destruct Hrev as [-> | ->]; simpl; apply rowsFlag_last_nonempty.
  - intros [-> | ->].
    + rewrite transmitted_plain in Hsent. by injection Hsent as <-.
    + by destruct (transmitted_inv Defaults r r' eq_refl Hsent) as (g & Hg & ->).
Qed.

Lemma symbolic_flag_last_nonempty_row_witness :
  transmitted Symbolic Samples.request_with_gaps
  = Some (prepared Symbolic ["0"; ""] Samples.request_with_gaps)
  ∧ symbolic (prepared Symbolic ["0"; ""] Samples.request_with_gaps)
    = match last_nonempty_row [["2"; "0"]; ["0"; "x"]] with
      | Some row => Some (forallb single_letter row)
      | None => None
      end.
Proof.
  split; [reflexivity |].
  exact (proj1 (symbolic_flag_last_nonempty_row Symbolic
                  Samples.request_with_gaps _ eq_refl) (or_introl eq_refl)).
Defined.

(** X3: What a failed call leaves behind: on a request without an initial
    guess the preparing revisions throw after the matrix and the constants
    of the caller's object have been filled with "0"; its precision and
    its symbolic flag are not reached, and it still has no initial guess. *)
Theorem solveSystem_failure_leaves_filled (rev : revision) (r : SolveRequest) :
  prepares rev = true → initialGuess r = None →
  ∃ e r', solveSystem rev r = (Throw e, r')
          ∧ Forall2 (filled "0") (matrix r) (matrix r')
          ∧ filled "0" (constants r) (constants r')
          ∧ initialGuess r' = None
          ∧ precision r' = precision r
          ∧ symbolic r' = symbolic r
          ∧ method r' = method r.
Proof.
  intros Hrev Hg. do 2 eexists.
  split; [by apply solveSystem_without_guess |]. simpl.
  split; [apply filled_rows |]. split; [apply filled_map |]. auto.
Qed.

Lemma solveSystem_failure_leaves_filled_witness :
  prepares Symbolic = true
  ∧ initialGuess Samples.request_without_guess = None
  ∧ ∃ e r', solveSystem Symbolic Samples.request_without_guess = (Throw e, r')
            ∧ Forall2 (filled "0") [["1"; "2"]; ["3"; "4"]] (matrix r')
            ∧ filled "0" ["5"; "6"] (constants r')
            ∧ initialGuess r' = None
            ∧ precision r' = JsNum (int 5)
            ∧ symbolic r' = None
            ∧ method r' = "gauss-elimination".
Proof.
  split; [reflexivity |]. split; [reflexivity |].
  exact (solveSystem_failure_leaves_filled Symbolic
           Samples.request_without_guess eq_refl eq_refl).
Defined.

(** X4: No empty string goes out: in the preparing revisions every cell of
    the transmitted matrix, constants and initial guess is non-empty, and
    the transmitted precision is never [null]. *)
Theorem transmitted_has_no_empty_cell (rev : revision) (r r' : SolveRequest) :
  prepares rev = true → transmitted rev r = Some r' →
  Forall (Forall (λ cell, cell ≠ "")) (matrix r')
  ∧ Forall (λ cell, cell ≠ "") (constants r')
  ∧ (∃ g', initialGuess r' = Some g' ∧ Forall (λ cell, cell ≠ "") g')
  ∧ precision r' ≠ JsNull.
Proof.
  intros Hrev Hsent.
  destruct (transmitted_inv rev r r' Hrev Hsent) as (g & Hg & ->). simpl.
  assert (∀ l, Forall (λ cell, cell ≠ "") (map (orDefault "0") l)) as H0.
  { intros l. apply Forall_forall. intros c Hc.
    apply list_elem_of_In, in_map_iff in Hc as (c0 & <- & _).
    by apply orDefault_not_empty. }
  split; [| split; [apply H0 | split]].
  - apply Forall_forall. intros row Hrow.
    apply list_elem_of_In, in_map_iff in Hrow as (row0 & <- & _). apply H0.
  - eexists. split; [reflexivity |].
    apply Forall_forall. intros c Hc.
    apply list_elem_of_In, in_map_iff in Hc as (c0 & <- & _).
    by apply orDefault_not_empty.
  - destruct rev; [discriminate | | |]; by destruct (precision r).
Qed.

Lemma transmitted_has_no_empty_cell_witness :
  prepares Defaults = true
  ∧ transmitted Defaults Samples.request_with_gaps
    = Some (prepared Defaults ["0"; ""] Samples.request_with_gaps)
  ∧ Forall (Forall (λ cell, cell ≠ ""))
      (matrix (prepared Defaults ["0"; ""] Samples.request_with_gaps)).
Proof.
  split; [reflexivity |]. split; [reflexivity |].
  exact (proj1 (transmitted_has_no_empty_cell Defaults
                  Samples.request_with_gaps _ eq_refl eq_refl)).
Defined.

End ApiServiceMore.

(** * More about the linear-system component *)

Section LinearMore.
Import LinearSystemSolver Reading.

(** What [handleSolve] leaves when the service returns an observable. *)
Lemma handleSolve_run (rev : ApiService.revision) (w : World)
    (p : ApiService.HttpPost) :
  (ApiService.solveSystem rev (linear_payload (this w))).1 = Normal p →
  ∃ w', handleSolve rev w = (Normal tt, w')
        ∧ sent w' = sent w ++ [p]
        ∧ same_form (this w) (this w')
        ∧ loading (this w') = true
        ∧ result (this w') = None
        ∧ errorMessage (this w') = errorMessage (this w)
        ∧ Playback.steps (player (this w')) = []
        ∧ Playback.currentStep (player (this w')) = 0
        ∧ Playback.isPlaying (player (this w')) = false
        ∧ Playback.simulationInterval (player (this w')) = None.
Proof.
  destruct w as [c t s].
  destruct c as [n m k me lu pr ig mi to us sb re [st cs ip sl [h |]] lo em];
    unfold linear_payload; simpl; intros Hp;
    unfold handleSolve, set_this, on_this, on_player, subscribe, call, bind,
      write, read; simpl; rewrite Hp; simpl;
    (eexists; split; [reflexivity |]; simpl; repeat split; reflexivity).
Qed.

(** X5: The request goes out as a prepared copy and the form stays as the user
    left it: in the preparing revisions [handleSolve] posts to the
    revision's endpoint a body in which the empty cells of the form are
    filled, while the component's own matrix, constants and initial guess
    keep their empty cells. *)
Theorem handleSolve_posts_prepared_copy (rev : ApiService.revision) (w : World) :
  ApiService.prepares rev = true →
  ∃ w' b,
    handleSolve rev w = (Normal tt, w')
    ∧ sent w' = sent w
                ++ [ApiService.mkPost (ApiService.endpoint rev)
                      (ApiService.LinearBody b)]
    ∧ Forall2 (ApiService.filled "0") (matrix (this w)) (ApiService.matrix b)
    ∧ ApiService.filled "0" (constants (this w)) (ApiService.constants b)
    ∧ (∃ g, ApiService.initialGuess b = Some g
            ∧ ApiService.filled "1" (initialGuess (this w)) g)
    ∧ ApiService.method b = method (this w)
    ∧ matrix (this w') = matrix (this w)
    ∧ constants (this w') = constants (this w)
    ∧ initialGuess (this w') = initialGuess (this w).
Proof.
  intros Hrev.
  pose proof (solveSystem_with_guess rev (linear_payload (this w))
                (initialGuess (this w)) Hrev eq_refl) as Hrun.
  destruct (handleSolve_run rev w _ (f_equal fst Hrun))
    as (w' & Hw' & Hsent & (_ & Hm & Hk & Hg & _) & _).
  exists w'. eexists. split; [exact Hw' |]. split; [exact Hsent |].
  simpl. split; [apply filled_rows |]. split; [apply filled_map |].
  split; [eexists; split; [reflexivity | apply filled_map] |].
  auto.
Qed.

Lemma handleSolve_posts_prepared_copy_witness :
  ApiService.prepares ApiService.Symbolic = true
  ∧ ∃ w' b,
      handleSolve ApiService.Symbolic
        (mkWorld Samples.two_equations Samples.no_timers []) = (Normal tt, w')
      ∧ sent w' = [] ++ [ApiService.mkPost
                           (ApiService.endpoint ApiService.Symbolic)
                           (ApiService.LinearBody b)]
      ∧ Forall2 (ApiService.filled "0") [["1"; "2"]; [""; "4"]]
          (ApiService.matrix b)
      ∧ ApiService.filled "0" ["5"; ""] (ApiService.constants b)
      ∧ (∃ g, ApiService.initialGuess b = Some g
              ∧ ApiService.filled "1" ["0"; "0"] g)
      ∧ ApiService.method b = "gauss-elimination"
      ∧ matrix (this w') = [["1"; "2"]; [""; "4"]]
      ∧ constants (this w') = ["5"; ""]
      ∧ initialGuess (this w') = ["0"; "0"].
Proof.
  split; [reflexivity |].
  exact (handleSolve_posts_prepared_copy ApiService.Symbolic
           (mkWorld Samples.two_equations Samples.no_timers []) eq_refl).
Defined.

Lemma addEquation_run (c : Component) :
  0 ≤ numEquations c + 1 →
  addEquation c
  = (Normal tt,
     set_initialGuess (initialGuess c ++ ["0"])
       (set_constants (constants c ++ [""])
          (set_matrix
             (map (λ row, row ++ [""]) (matrix c)
              ++ [replicate (Z.to_nat (numEquations c + 1)) ""])
             (set_numEquations (numEquations c + 1) c)))).
Proof.
  intros Hn. unfold addEquation, bind, write, read. simpl.
  by rewrite Array_fill_run by done.
Qed.

Lemma removeEquation_run (c : Component) :
  2 < numEquations c →
  removeEquation c
  = (Normal tt,
     set_initialGuess (pop (initialGuess c))
       (set_constants (pop (constants c))
          (set_matrix (pop (map pop (matrix c)))
             (set_numEquations (numEquations c - 1) c)))).
Proof.
  intros Hn. unfold removeEquation, bind, read. simpl.
  by rewrite (proj2 (Z.ltb_lt _ _) Hn).
Qed.

Lemma pop_snoc {A} (xs : list A) (x : A) : pop (xs ++ [x]) = xs.
Proof. apply removelast_last. Qed.

Lemma pop_take {A} (xs : list A) : pop xs = take (length xs - 1) xs.
Proof.
  unfold pop. rewrite removelast_firstn_len. f_equal. lia.
Qed.

Lemma pop_rows_snoc (rows : list (list string)) :
  map pop (map (λ row, row ++ [""]) rows) = rows.
Proof.
  rewrite map_map. rewrite <- (map_id rows) at 2.
  apply map_ext. intros row. apply pop_snoc.
Qed.

(** X6: Adding an equation and removing it again gives back the form exactly,
    cell for cell, from any count of at least two. *)
Theorem addEquation_then_removeEquation (c : Component) :
  2 ≤ numEquations c →
  ∃ c', addEquation c = (Normal tt, c')
        ∧ removeEquation c' = (Normal tt, c).
Proof.
  intros Hn. eexists. split; [apply addEquation_run; lia |].
  rewrite removeEquation_run by (simpl; lia). simpl.
  rewrite map_app, pop_rows_snoc. simpl. rewrite !pop_snoc.
  replace (numEquations c + 1 - 1) with (numEquations c) by lia.
  by destruct c.
Qed.

Lemma addEquation_then_removeEquation_witness :
  2 ≤ numEquations Samples.two_equations
  ∧ ∃ c', addEquation Samples.two_equations = (Normal tt, c')
          ∧ removeEquation c' = (Normal tt, Samples.two_equations).
Proof.
  assert (2 ≤ numEquations Samples.two_equations) as Hn by (simpl; lia).
  split; [exact Hn |].
  exact (addEquation_then_removeEquation Samples.two_equations Hn).
Defined.

(** X7: Adding an equation keeps what was entered: every cell of the matrix,
    every constant and every initial guess is where it was, the new row
    and the new column hold empty strings, the new constant is empty and
    the new initial guess is "0". *)
Theorem addEquation_keeps_cells (c : Component) :
  Inv c →
  ∃ c', addEquation c = (Normal tt, c')
        ∧ (∀ i j cell, cell_at (matrix c) i j = Some cell →
             cell_at (matrix c') i j = Some cell)
        ∧ (∀ i j, (i ≤ Z.to_nat (numEquations c))%nat →
                  (j ≤ Z.to_nat (numEquations c))%nat →
                  i = Z.to_nat (numEquations c) ∨ j = Z.to_nat (numEquations c) →
                  cell_at (matrix c') i j = Some "")
        ∧ constants c' = constants c ++ [""]
        ∧ initialGuess c' = initialGuess c ++ ["0"].
Proof.
  intros (Hn & [Hrows Hcols] & Hk & Hg).
  eexists. split; [apply addEquation_run; lia |]. simpl.
  set (n := Z.to_nat (numEquations c)) in *.
  assert (Z.to_nat (numEquations c + 1) = Datatypes.S n) as -> by lia.
  assert (∀ new i row, matrix c !! i = Some row →
            (map (λ row, row ++ [""]) (matrix c) ++ [new]) !! i
            = Some (row ++ [""])) as Hold.
  { intros new i row Hi. rewrite lookup_app_l
      by (rewrite length_map; by apply lookup_lt_Some in Hi).
    change (map (λ row, row ++ [""]) (matrix c))
      with ((λ row, row ++ [""]) <$> matrix c).
    by rewrite list_lookup_fmap, Hi. }
  split; [| split; [| auto]].
  - intros i j cell. unfold cell_at.
    destruct (matrix c !! i) as [row |] eqn:Hi; [| done].
    intros Hj. rewrite (Hold _ i row Hi).
    change (row !! j = Some cell) in Hj.
    change ((row ++ [""]) !! j = Some cell).
    rewrite lookup_app_l by by apply lookup_lt_Some in Hj. exact Hj.
  - intros i j Hi Hj Hnew. unfold cell_at.
    destruct (decide (i = n)) as [-> | Hin].
    + rewrite list_lookup_middle by by rewrite length_map.
      change (replicate (Datatypes.S n) "" !! j = Some "").
      apply lookup_replicate_2. lia.
    + destruct Hnew as [-> | ->]; [done |].
      destruct (lookup_lt_is_Some_2 (matrix c) i) as [row Hrow]; [lia |].
      rewrite (Hold _ i row Hrow).
      change ((row ++ [""]) !! n = Some "").
      rewrite Forall_forall in Hcols.
      apply list_lookup_middle. symmetry. apply Hcols.
      apply list_elem_of_lookup. eauto.
Qed.

Lemma addEquation_keeps_cells_witness :
  Inv Samples.two_equations
  ∧ ∃ c', addEquation Samples.two_equations = (Normal tt, c')
          ∧ cell_at (matrix c') 1 1 = Some "4"
          ∧ cell_at (matrix c') 2 0 = Some ""
          ∧ constants c' = ["5"; ""; ""]
          ∧ initialGuess c' = ["0"; "0"; "0"].
Proof.
  assert (Inv Samples.two_equations) as HInv.
  { unfold Inv, square. simpl. repeat split; try lia. repeat constructor. }
  split; [exact HInv |].
  destruct (addEquation_keeps_cells Samples.two_equations HInv)
    as (c' & Hrun & Hold & Hnew & Hk & Hg).
  exists c'. split; [exact Hrun |].
  split; [exact (Hold 1%nat 1%nat "4" eq_refl) |].
  split; [apply Hnew; simpl; lia |].
  split; [exact Hk | exact Hg].
Defined.

(** X8: Removing an equation drops the last row and the last column and
    nothing else: the cells of the first n-1 rows and columns, the first
    n-1 constants and the first n-1 initial guesses stay where they were. *)
Theorem removeEquation_keeps_block (c : Component) :
  Inv c → 2 < numEquations c →
  ∃ c', removeEquation c = (Normal tt, c')
        ∧ (∀ i j, (i < Z.to_nat (numEquations c) - 1)%nat →
                  (j < Z.to_nat (numEquations c) - 1)%nat →
                  cell_at (matrix c') i j = cell_at (matrix c) i j)
        ∧ constants c' = take (Z.to_nat (numEquations c) - 1) (constants c)
        ∧ initialGuess c'
          = take (Z.to_nat (numEquations c) - 1) (initialGuess c).
Proof.
  intros (Hn & [Hrows Hcols] & Hk & Hg) Hgt.
  eexists. split; [by apply removeEquation_run |]. simpl.
  set (n := Z.to_nat (numEquations c)) in *.
  rewrite (pop_take (map pop (matrix c))), (pop_take (constants c)),
    (pop_take (initialGuess c)), length_map, Hrows, Hk, Hg.
  split; [| auto].
  intros i j Hi Hj. unfold cell_at.
  rewrite lookup_take_lt by done.
  change (map pop (matrix c)) with (pop <$> matrix c).
  rewrite list_lookup_fmap.
  destruct (matrix c !! i) as [row |] eqn:Hrow; [| done].
  change (pop row !! j = row !! j).
  rewrite Forall_forall in Hcols.
  rewrite pop_take, (Hcols row) by (apply list_elem_of_lookup; eauto).
  by rewrite lookup_take_lt.
Qed.

Lemma removeEquation_keeps_block_witness :
  ∃ c3, addEquation Samples.two_equations = (Normal tt, c3)
        ∧ Inv c3 ∧ 2 < numEquations c3
        ∧ ∃ c', removeEquation c3 = (Normal tt, c')
                ∧ cell_at (matrix c') 1 1 = cell_at (matrix c3) 1 1
                ∧ constants c' = take 2 (constants c3).
Proof.
  eexists. split; [reflexivity |].
  match goal with |- Inv ?c ∧ _ => assert (Inv c) as HInv end.
  { unfold Inv, square. simpl. repeat split; try lia. repeat constructor. }
  split; [exact HInv |].
  match goal with |- ?P ∧ _ => assert P as Hgt by (simpl; lia) end.
  split; [exact Hgt |].
  destruct (removeEquation_keeps_block _ HInv Hgt) as (c' & Hrun & Hb & Hk & _).
  exists c'. split; [exact Hrun |].
  split; [apply Hb; simpl; lia | exact Hk].
Defined.

Lemma then_run {S} (a b : Action S unit) (s s1 : S) :
  a s = (Normal tt, s1) → then_ a b s = b s1.
Proof. intros Ha. unfold then_, bind. by rewrite Ha. Qed.

(** What [clearAll] leaves. *)
Lemma clearAll_run (w : World) :
  0 ≤ numEquations (this w) →
  let n := Z.to_nat (numEquations (this w)) in
  ∃ w', clearAll w = (Normal tt, w')
        ∧ numEquations (this w') = numEquations (this w)
        ∧ matrix (this w') = replicate n (replicate n "")
        ∧ constants (this w') = replicate n ""
        ∧ initialGuess (this w') = replicate n "0"
        ∧ linear_payload (this w')
          = ApiService.set_initialGuess (Some (replicate n "0"))
              (ApiService.set_constants (replicate n "")
                 (ApiService.set_matrix (replicate n (replicate n ""))
                    (linear_payload (this w))))
        ∧ result (this w') = None
        ∧ errorMessage (this w') = ""
        ∧ loading (this w') = loading (this w)
        ∧ Playback.steps (player (this w')) = []
        ∧ Playback.currentStep (player (this w')) = 0
        ∧ Playback.isPlaying (player (this w')) = false
        ∧ Playback.simulationInterval (player (this w')) = None
        ∧ Playback.speedLevel (player (this w'))
          = Playback.speedLevel (player (this w))
        ∧ sent w' = sent w.
Proof.
  intros Hn n. destruct w as [c t s]. simpl in Hn, n.
  unfold clearAll, on_this, set_this, on_this, on_player, bind, write.
  cbn [this timers sent]. rewrite (initializeMatrix_run c Hn). fold n.
  destruct c as [k m ks me lu pr ig mi to us sb re [st cs ip sl [h |]] lo em];
    (eexists; split; [reflexivity |]; simpl; repeat split; reflexivity).
Qed.

(** What the [next] callback leaves. *)
Lemma handleSolve_next_run (response : ApiService.SolveResponse) (w : World) :
  ∃ w', handleSolve_next response w = (Normal tt, w')
        ∧ same_form (this w) (this w')
        ∧ result (this w') = Some response
        ∧ loading (this w') = false
        ∧ errorMessage (this w') = errorMessage (this w)
        ∧ Playback.steps (player (this w'))
          = match ApiService.res_steps response with
            | Some (s :: l) => s :: l
            | _ => Playback.steps (player (this w))
            end
        ∧ (is_Some (ApiService.res_steps response ≫= head) →
             Playback.currentStep (player (this w')) = 0)
        ∧ sent w' = sent w ∧ timers w' = timers w.
Proof.
  destruct w as [c t s]. unfold handleSolve_next.
  destruct c as [k m ks me lu pr ig mi to us sb re [st cs ip sl hd] lo em].
  destruct (ApiService.res_steps response) as [[| x l] |];
    (eexists; split; [reflexivity |]; simpl; repeat split; try reflexivity);
    intros [? [=]].
Qed.

(** X9: [clearAll] resets what is shown and keeps what is set: the form has
    its n-by-n matrix of empty strings, n empty constants and n initial
    guesses "0", the result, the steps and the error message are gone and
    playback is stopped; the count of equations, the solver settings and
    the loading flag are as before, and no request is withdrawn. *)
Theorem clearAll_resets_form (w : World) :
  Inv (this w) →
  let n := Z.to_nat (numEquations (this w)) in
  ∃ w', clearAll w = (Normal tt, w')
        ∧ numEquations (this w') = numEquations (this w)
        ∧ (∀ i j, (i < n)%nat → (j < n)%nat →
             cell_at (matrix (this w')) i j = Some "")
        ∧ constants (this w') = replicate n ""
        ∧ initialGuess (this w') = replicate n "0"
        ∧ result (this w') = None
        ∧ errorMessage (this w') = ""
        ∧ Playback.steps (player (this w')) = []
        ∧ Playback.isPlaying (player (this w')) = false
        ∧ loading (this w') = loading (this w)
        ∧ method (this w') = method (this w)
        ∧ precision (this w') = precision (this w)
        ∧ sent w' = sent w.
Proof.
  intros (Hn & _) n.
  destruct (clearAll_run w) as
    (w' & Hrun & Hcount & Hm & Hk & Hg & Hpay & Hres & Hem & Hlo & Hst & _
        & Hpl & _ & _ & Hsent); [lia |].
  exists w'. split; [exact Hrun |]. fold n in Hm, Hk, Hg.
  repeat split; try done.
  - intros i j Hi Hj. unfold cell_at. rewrite Hm.
    rewrite lookup_replicate_2 by done.
    change (replicate n "" !! j = Some ""). by apply lookup_replicate_2.
  - by injection Hpay.
  - by injection Hpay.
Qed.

Lemma clearAll_resets_form_witness :
  Inv Samples.two_equations
  ∧ ∃ w', clearAll (mkWorld Samples.two_equations Samples.no_timers [])
          = (Normal tt, w')
          ∧ cell_at (matrix (this w')) 0 1 = Some ""
          ∧ constants (this w') = [""; ""]
          ∧ initialGuess (this w') = ["0"; "0"]
          ∧ loading (this w') = false.
Proof.
  assert (Inv Samples.two_equations) as HInv.
  { unfold Inv, square. simpl. repeat split; try lia. repeat constructor. }
  split; [exact HInv |].
  destruct (clearAll_resets_form
              (mkWorld Samples.two_equations Samples.no_timers []) HInv)
    as (w' & Hrun & _ & Hcell & Hk & Hg & _ & _ & _ & _ & Hlo & _).
  exists w'. split; [exact Hrun |].
  split; [apply Hcell; simpl; lia |].
  split; [exact Hk |]. split; [exact Hg | exact Hlo].
Defined.

Lemma map_replicate {A B} (f : A → B) (n : nat) (x : A) :
  map f (replicate n x) = replicate n (f x).
Proof. induction n as [| n IH]; simpl; [done | by rewrite IH]. Qed.

(** X10: A solve straight after [clearAll] sends the zero system: every
    coefficient and every constant goes out as "0", and so does every
    initial guess, since the cleared form holds "0" there and the default
    "1" is for empty guesses only. *)
Theorem solve_after_clearAll_sends_zeros (rev : ApiService.revision)
    (w : World) :
  ApiService.prepares rev = true → 0 ≤ numEquations (this w) →
  let n := Z.to_nat (numEquations (this w)) in
  ∃ w' b,
    then_ clearAll (handleSolve rev) w = (Normal tt, w')
    ∧ sent w' = sent w
                ++ [ApiService.mkPost (ApiService.endpoint rev)
                      (ApiService.LinearBody b)]
    ∧ ApiService.matrix b = replicate n (replicate n "0")
    ∧ ApiService.constants b = replicate n "0"
    ∧ ApiService.initialGuess b = Some (replicate n "0").
Proof.
  intros Hrev Hn n.
  destruct (clearAll_run w Hn) as
    (w1 & Hrun1 & _ & Hm & Hk & Hg & Hpay & _ & _ & _ & _ & _ & _ & _ & _
        & Hsent1).
  fold n in Hm, Hk, Hg, Hpay.
  assert (ApiService.initialGuess (linear_payload (this w1))
          = Some (replicate n "0")) as Hig by by rewrite Hpay.
  pose proof (solveSystem_with_guess rev (linear_payload (this w1)) _ Hrev Hig)
    as Hsolve.
  destruct (handleSolve_run rev w1 _ (f_equal fst Hsolve))
    as (w' & Hrun & Hsent & _).
  exists w'. eexists. rewrite (then_run _ _ _ _ Hrun1).
  split; [exact Hrun |]. split; [by rewrite Hsent, Hsent1 |].
  simpl. rewrite Hm, Hk. by rewrite !map_replicate.
Qed.

Lemma solve_after_clearAll_sends_zeros_witness :
  ApiService.prepares ApiService.Defaults = true
  ∧ 0 ≤ numEquations Samples.two_equations
  ∧ ∃ w' b,
      then_ clearAll (handleSolve ApiService.Defaults)
        (mkWorld Samples.two_equations Samples.no_timers []) = (Normal tt, w')
      ∧ sent w' = [] ++ [ApiService.mkPost
                           (ApiService.endpoint ApiService.Defaults)
                           (ApiService.LinearBody b)]
      ∧ ApiService.matrix b = replicate 2 (replicate 2 "0")
      ∧ ApiService.constants b = replicate 2 "0"
      ∧ ApiService.initialGuess b = Some (replicate 2 "0").
Proof.
  assert (0 ≤ numEquations Samples.two_equations) as Hn by (simpl; lia).
  split; [reflexivity |]. split; [exact Hn |].
  exact (solve_after_clearAll_sends_zeros ApiService.Defaults
           (mkWorld Samples.two_equations Samples.no_timers []) eq_refl Hn).
Defined.

(** X11: Clearing does not cancel a request: when the response to a solve
    arrives after [clearAll], the [next] callback still stores it as the
    result, shows its steps from the first one and ends the loading. *)
Theorem response_after_clearAll_is_shown (rev : ApiService.revision)
    (response : ApiService.SolveResponse) (w : World) :
  0 ≤ numEquations (this w) →
  ∃ w', then_ (handleSolve rev) (then_ clearAll (handleSolve_next response)) w
        = (Normal tt, w')
        ∧ result (this w') = Some response
        ∧ loading (this w') = false
        ∧ Playback.steps (player (this w'))
          = match ApiService.res_steps response with
            | Some (s :: l) => s :: l
            | _ => []
            end
        ∧ length (sent w') = Datatypes.S (length (sent w)).
Proof.
  intros Hn.
  destruct (solveSystem_returns rev (linear_payload (this w))
              (initialGuess (this w)) eq_refl) as [p Hp].
  destruct (handleSolve_run rev w p Hp)
    as (w1 & Hrun1 & Hsent1 & (Hcount & _) & _).
  destruct (clearAll_run w1) as
    (w2 & Hrun2 & _ & _ & _ & _ & _ & _ & _ & _ & Hst2 & _ & _ & _ & _ & Hsent2);
    [by rewrite Hcount |].
  destruct (handleSolve_next_run response w2)
    as (w' & Hrun & _ & Hres & Hlo & _ & Hst & _ & Hsent & _).
  exists w'.
  rewrite (then_run _ _ _ _ Hrun1), (then_run _ _ _ _ Hrun2).
  split; [exact Hrun |]. split; [exact Hres |]. split; [exact Hlo |].
  split.
  - rewrite Hst, Hst2. reflexivity.
  - rewrite Hsent, Hsent2, Hsent1, length_app. simpl. lia.
Qed.

Lemma response_after_clearAll_is_shown_witness :
  0 ≤ numEquations Samples.two_equations
  ∧ ∃ w', then_ (handleSolve ApiService.Plain)
            (then_ clearAll
               (handleSolve_next
                  (ApiService.mkSolveResponse (Some ["1"; "2"]) "3 ms" None
                     (Some ["pivot"; "back-substitute"]) None None)))
            (mkWorld Samples.two_equations Samples.no_timers [])
          = (Normal tt, w')
          ∧ loading (this w') = false
          ∧ Playback.steps (player (this w')) = ["pivot"; "back-substitute"].
Proof.
  assert (0 ≤ numEquations Samples.two_equations) as Hn by (simpl; lia).
  split; [exact Hn |].
  destruct (response_after_clearAll_is_shown ApiService.Plain
              (ApiService.mkSolveResponse (Some ["1"; "2"]) "3 ms" None
                 (Some ["pivot"; "back-substitute"]) None None)
              (mkWorld Samples.two_equations Samples.no_timers []) Hn)
    as (w' & Hrun & _ & Hlo & Hst & _).
  exists w'. split; [exact Hrun |]. split; [exact Hlo | exact Hst].
Defined.

(** What the error callback of the linear-system component leaves. *)
Lemma failed_request_surfaces_message_linear (e : HttpErrorResponse)
    (w : LinearSystemSolver.World) :
  ∃ w', LinearSystemSolver.handleSolve_error e w = (Normal tt, w')
        ∧ LinearSystemSolver.errorMessage (LinearSystemSolver.this w')
          = or_literal (optional_chain e body_message) "An error occurred"
        ∧ Reading.same_form (LinearSystemSolver.this w)
            (LinearSystemSolver.this w').
Proof.
  destruct w as [c t s]. eexists. split; [reflexivity |].
  split; [reflexivity |]. by destruct c.
Qed.

End LinearMore.

(** * More about step playback: the interval behind it *)

Section PlaybackMore.
Import Playback Reading.

Lemma live_handles_clearInterval (h : positive) (t : Timers) :
  live_handles (clearInterval h t) = filter (λ x, x ≠ h) (live_handles t).
Proof.
  unfold live_handles, clearInterval. simpl.
  induction (live t) as [| [x period] l IH]; [reflexivity |].
  rewrite fmap_cons. simpl.
  destruct (decide (x = h)) as [-> | Hne].
  - rewrite !filter_cons_False by (simpl; intros H; by apply H). exact IH.
  - rewrite !filter_cons_True by done. rewrite fmap_cons. simpl. by rewrite IH.
Qed.

Lemma live_handles_setInterval (period : Z) (t : Timers) :
  live_handles (setInterval period t).2 = live_handles t ++ [fresh t].
Proof. unfold live_handles, setInterval. simpl. by rewrite fmap_app. Qed.

Lemma is_live_handles (h : positive) (t : Timers) :
  is_live h t = bool_decide (h ∈ live_handles t).
Proof. reflexivity. Qed.

Lemma tidy_stopSimulation (st : State) : tidy st → tidy (stopSimulation st).
Proof.
  destruct st as [p t]. unfold tidy, stopSimulation. simpl.
  intros (Hlive & Hplay & Hfresh).
  destruct (simulationInterval p) as [h |] eqn:Hh; simpl.
  - rewrite live_handles_clearInterval, Hlive.
    rewrite filter_cons_False by (intros H; by apply H). rewrite filter_nil.
    repeat split;
      first [done | by intros [? [=]] | by constructor].
  - rewrite Hh, Hlive. repeat split;
      first [done | by intros [? [=]] | by constructor].
Qed.

Lemma stopSimulation_no_handle (st : State) :
  simulationInterval (stopSimulation st).1 = None
  ∧ isPlaying (stopSimulation st).1 = false.
Proof.
  destruct st as [p t]. unfold stopSimulation. simpl.
  destruct (simulationInterval p) eqn:Hh; simpl; auto.
Qed.

Lemma tidy_startSimulation (st : State) :
  tidy st → simulationInterval st.1 = None → tidy (startSimulation st).
Proof.
  destruct st as [p t]. unfold tidy, startSimulation. simpl.
  intros (Hlive & Hplay & Hfresh) Hnone. rewrite Hnone in Hlive.
  unfold live_handles in *.
  destruct (steps_length p - 1 <=? currentStep p); simpl;
    rewrite fmap_app, Hlive; simpl;
    (repeat split; [eauto | repeat constructor; lia]).
Qed.

Lemma tidy_set_currentStep (i : Z) (p : Player) (t : Timers) :
  tidy (p, t) → tidy (set_currentStep i p, t).
Proof. done. Qed.

Lemma tidy_nextStep (st : State) : tidy st → tidy (nextStep st).
Proof.
  destruct st as [p t]. intros Ht. unfold nextStep.
  destruct (currentStep p <? steps_length p - 1).
  - by apply tidy_set_currentStep.
  - by apply tidy_stopSimulation.
Qed.

Lemma tidy_not_playing (st : State) :
  tidy st → isPlaying st.1 = false → simulationInterval st.1 = None.
Proof.
  intros (_ & Hplay & _) Hoff.
  destruct (simulationInterval st.1) as [h |]; [| done].
  assert (isPlaying st.1 = true) by (apply Hplay; eauto). congruence.
Qed.

Lemma tidy_run (o : op) (st : State) : tidy st → guarded o → tidy (run o st).
Proof.
  intros Ht Hg. destruct o; simpl.
  - destruct st as [p t]. unfold previousStep.
    destruct (0 <? currentStep p); [by apply tidy_set_currentStep | done].
  - by apply tidy_nextStep.
  - unfold toggleSimulation. destruct (isPlaying st.1) eqn:Hplay.
    + by apply tidy_stopSimulation.
    + apply tidy_startSimulation; [done |]. by apply tidy_not_playing.
  - by destruct Hg.
  - by apply tidy_stopSimulation.
  - unfold onSpeedChange. destruct (isPlaying st.1); [| done].
    apply tidy_startSimulation; [by apply tidy_stopSimulation |].
    apply stopSimulation_no_handle.
  - unfold tick. destruct (is_live h st.2); [| done]. by apply tidy_nextStep.
Qed.

(** X12: No interval is leaked: starting from a player that holds the only live
    interval (or none, with none live), any sequence of previous/next
    step, toggle, stop, speed change and timer ticks leaves at most one
    live interval, the one the player holds, and the player plays exactly
    when it holds one. *)
Theorem playback_keeps_one_interval (st : State) (ops : list op) :
  tidy st → Forall guarded ops →
  let st' := foldl (λ s o, run o s) st ops in
  tidy st'
  ∧ (length (live_handles st'.2) ≤ 1)%nat
  ∧ (isPlaying st'.1 = false → live_handles st'.2 = []).
Proof.
  intros Ht Hops.
  assert (tidy (foldl (λ s o, run o s) st ops)) as Ht'.
  { revert st Ht. induction Hops as [| o ops Ho Hops IH]; intros st Ht;
      simpl; [done |]. apply IH. by apply tidy_run. }
  intros st'. subst st'. split; [exact Ht' |].
  pose proof Ht' as (Hlive & Hplay & _). split.
  - rewrite Hlive. destruct (simulationInterval _); simpl; lia.
  - intros Hoff. rewrite Hlive.
    by rewrite (tidy_not_playing _ Ht' Hoff).
Qed.

Lemma playback_keeps_one_interval_witness :
  tidy (Samples.player_at_end, Samples.one_timer)
  ∧ Forall guarded [ToggleSimulation; OnSpeedChange; ToggleSimulation;
                    NextStep; Tick 2%positive; OnSpeedChange]
  ∧ let st' := foldl (λ s o, run o s)
                 (Samples.player_at_end, Samples.one_timer)
                 [ToggleSimulation; OnSpeedChange; ToggleSimulation;
                  NextStep; Tick 2%positive; OnSpeedChange] in
    tidy st'
    ∧ (length (live_handles st'.2) ≤ 1)%nat
    ∧ (isPlaying st'.1 = false → live_handles st'.2 = []).
Proof.
  assert (tidy (Samples.player_at_end, Samples.one_timer)) as Ht.
  { unfold tidy. simpl. repeat split; [eauto | repeat constructor]. }
  assert (Forall guarded [ToggleSimulation; OnSpeedChange; ToggleSimulation;
                          NextStep; Tick 2%positive; OnSpeedChange]) as Hops.
  { repeat constructor; discriminate. }
  split; [exact Ht |]. split; [exact Hops |].
  exact (playback_keeps_one_interval _ _ Ht Hops).
Defined.

(** X13: [startSimulation] does not look for a running interval: called on a
    player that is already playing it starts a second interval and
    forgets the handle of the first, which stays live even after
    [stopSimulation] and keeps ticking. *)
Theorem startSimulation_twice_leaks (st : State) (h : positive) :
  tidy st → simulationInterval st.1 = Some h →
  let st' := startSimulation st in
  simulationInterval st'.1 = Some (fresh st.2)
  ∧ h ≠ fresh st.2
  ∧ live_handles st'.2 = [h; fresh st.2]
  ∧ live_handles (stopSimulation st').2 = [h]
  ∧ simulationInterval (stopSimulation st').1 = None
  ∧ tick h (stopSimulation st') = nextStep (stopSimulation st').
Proof.
  destruct st as [p t]. intros (Hlive & _ & Hfresh) Hh st'. subst st'.
  simpl in Hlive, Hfresh, Hh. rewrite Hh in Hlive.
  change (p, t).2 with t.
  assert (h ≠ fresh t) as Hne.
  { rewrite Hlive in Hfresh. apply Forall_inv in Hfresh. lia. }
  assert (live_handles (startSimulation (p, t)).2 = [h; fresh t]) as Hl2.
  { unfold startSimulation.
    destruct (steps_length p - 1 <=? currentStep p); simpl;
      unfold live_handles in *; simpl; by rewrite fmap_app, Hlive. }
  assert (simulationInterval (startSimulation (p, t)).1 = Some (fresh t)) as Hs.
  { unfold startSimulation.
    by destruct (steps_length p - 1 <=? currentStep p). }
  assert (live_handles (stopSimulation (startSimulation (p, t))).2 = [h])
    as Hl3.
  { destruct (startSimulation (p, t)) as [p' t'] eqn:Hst. simpl in *.
    unfold stopSimulation. simpl. rewrite Hs. simpl.
    rewrite live_handles_clearInterval, Hl2.
    rewrite filter_cons_True by done.
    rewrite filter_cons_False by (intros H; by apply H). by rewrite filter_nil. }
  split; [exact Hs |]. split; [exact Hne |]. split; [exact Hl2 |].
  split; [exact Hl3 |]. split; [apply stopSimulation_no_handle |].
  unfold tick. rewrite is_live_handles, Hl3.
  rewrite bool_decide_eq_true_2; [done | by left].
Qed.

Lemma startSimulation_twice_leaks_witness :
  tidy (Samples.player_at_end, Samples.one_timer)
  ∧ simulationInterval Samples.player_at_end = Some 1%positive
  ∧ live_handles
      (stopSimulation
         (startSimulation (Samples.player_at_end, Samples.one_timer))).2
    = [1%positive].
Proof.
  assert (tidy (Samples.player_at_end, Samples.one_timer)) as Ht.
  { unfold tidy. simpl. repeat split; [eauto | repeat constructor]. }
  split; [exact Ht |]. split; [reflexivity |].
  destruct (startSimulation_twice_leaks
              (Samples.player_at_end, Samples.one_timer) 1%positive Ht eq_refl)
    as (_ & _ & _ & Hleft & _).
  exact Hleft.
Defined.

Lemma live_single (t : Timers) (h : positive) :
  live_handles t = [h] → filter (λ e, e.1 ≠ h) (live t) = [].
Proof.
  unfold live_handles. destruct (live t) as [| [x period] [| e l]]; try done.
  simpl. intros [= ->].
  by rewrite filter_cons_False by (simpl; intros H; by apply H).
Qed.

(** X14: on a tidy player (the live intervals are exactly the one whose
    handle it holds, or none when it holds none; it plays exactly when it
    holds one; handles still to be issued are new), which is what the
    guarded controls keep and a second [startSimulation] breaks: changing
    the speed while playing swaps the interval for one with the new
    period, 2200 - 200 * speedLevel milliseconds (2000 at level 1 down to
    200 at level 10), and it is then the only live interval; while not
    playing a speed change does nothing. *)
Theorem onSpeedChange_swaps_interval (st : State) :
  tidy st →
  (isPlaying st.1 = true →
     live (onSpeedChange st).2
     = [(fresh st.2, 2200 - speedLevel st.1 * 200)]
     ∧ simulationInterval (onSpeedChange st).1 = Some (fresh st.2)
     ∧ isPlaying (onSpeedChange st).1 = true
     ∧ (1 ≤ speedLevel st.1 ≤ 10 →
          200 ≤ 2200 - speedLevel st.1 * 200 ≤ 2000))
  ∧ (isPlaying st.1 = false → onSpeedChange st = st).
Proof.
  destruct st as [p t]. intros (Hlive & Hplay & _). simpl in *. split.
  - intros Hon. unfold onSpeedChange. simpl. rewrite Hon.
    destruct (proj1 Hplay Hon) as [h Hh]. rewrite Hh in Hlive.
    unfold stopSimulation. simpl. rewrite Hh.
    unfold startSimulation, clearInterval, setInterval. simpl.
    rewrite (live_single t h Hlive).
    destruct (steps_length _ - 1 <=? currentStep p); simpl;
      (repeat split; try done; lia).
  - intros Hoff. unfold onSpeedChange. simpl. by rewrite Hoff.
Qed.

Lemma onSpeedChange_swaps_interval_witness :
  tidy (Samples.player_at_end, Samples.one_timer)
  ∧ isPlaying Samples.player_at_end = true
  ∧ live (onSpeedChange (Samples.player_at_end, Samples.one_timer)).2
    = [(2%positive, 1200)].
Proof.
  assert (tidy (Samples.player_at_end, Samples.one_timer)) as Ht.
  { unfold tidy. simpl. repeat split; [eauto | repeat constructor]. }
  split; [exact Ht |]. split; [reflexivity |].
  exact (proj1 (proj1 (onSpeedChange_swaps_interval _ Ht) eq_refl)).
Defined.

Lemma set_currentStep_same (p : Player) : set_currentStep (currentStep p) p = p.
Proof. by destruct p. Qed.

Lemma ticks_advance (h : positive) (t : Timers) (k : nat) (p : Player) :
  is_live h t = true →
  currentStep p + Z.of_nat k ≤ steps_length p - 1 →
  Nat.iter k (tick h) (p, t)
  = (set_currentStep (currentStep p + Z.of_nat k) p, t).
Proof.
  intros Hlive. induction k as [| k IH]; intros Hk.
  - simpl. by rewrite Z.add_0_r, set_currentStep_same.
  - rewrite Nat.iter_succ, IH by lia.
    replace (currentStep p + Z.of_nat (Datatypes.S k))
      with (currentStep p + Z.of_nat k + 1) by lia.
    unfold tick. simpl. rewrite Hlive. unfold nextStep, steps_length. simpl.
    unfold steps_length in Hk.
    by rewrite (proj2 (Z.ltb_lt _ _)) by lia.
Qed.

(** X15: on a tidy player (as in X14: its handle is the only live interval,
    no second one left over from a repeated [startSimulation]) that is on
    an available step c of n and holds handle h: n - 1 - c ticks of h bring
    it to the last step, nothing else changed; the next tick stops it (not
    playing, no handle, no live interval) without moving it; and every
    tick after that, of any handle, changes nothing. *)
Theorem playback_runs_to_the_end (p : Player) (t : Timers) (h : positive) :
  tidy (p, t) → in_range p → simulationInterval p = Some h →
  let k := Z.to_nat (steps_length p - 1 - currentStep p) in
  Nat.iter k (tick h) (p, t) = (set_currentStep (steps_length p - 1) p, t)
  ∧ let st' := Nat.iter (Datatypes.S k) (tick h) (p, t) in
    currentStep st'.1 = steps_length p - 1
    ∧ steps st'.1 = steps p
    ∧ isPlaying st'.1 = false
    ∧ simulationInterval st'.1 = None
    ∧ live_handles st'.2 = []
    ∧ ∀ m h', Nat.iter m (tick h') st' = st'.
Proof.
  intros (Hlive & _ & _) Hr Hh k. simpl in Hlive. rewrite Hh in Hlive.
  assert (is_live h t = true) as Hl.
  { rewrite is_live_handles, Hlive. apply bool_decide_eq_true_2. by left. }
  unfold in_range in Hr.
  assert (Nat.iter k (tick h) (p, t)
          = (set_currentStep (steps_length p - 1) p, t)) as Hk.
  { rewrite ticks_advance by (done || lia). do 2 f_equal. lia. }
  split; [exact Hk |].
  rewrite Nat.iter_succ, Hk. unfold tick at 1. simpl. rewrite Hl.
  unfold nextStep, steps_length. simpl. rewrite Z.ltb_irrefl.
  unfold stopSimulation. simpl. rewrite Hh. simpl.
  rewrite live_handles_clearInterval, Hlive.
  rewrite filter_cons_False by (intros H; by apply H). rewrite filter_nil.
  repeat split.
  intros m h'. induction m as [| m IH]; [reflexivity |].
  rewrite Nat.iter_succ, IH. unfold tick. simpl.
  rewrite is_live_handles, live_handles_clearInterval, Hlive.
  rewrite filter_cons_False by (intros H; by apply H). rewrite filter_nil.
  rewrite bool_decide_eq_false_2; [done | by apply not_elem_of_nil].
Qed.

Lemma playback_runs_to_the_end_witness :
  tidy (MoreSamples.player_at_start, Samples.one_timer)
  ∧ in_range MoreSamples.player_at_start
  ∧ Nat.iter 2 (tick 1%positive) (MoreSamples.player_at_start, Samples.one_timer)
    = (set_currentStep 2 MoreSamples.player_at_start, Samples.one_timer)
  ∧ isPlaying
      (Nat.iter 3 (tick 1%positive) (MoreSamples.player_at_start, Samples.one_timer)).1
    = false.
Proof.
  assert (tidy (MoreSamples.player_at_start, Samples.one_timer)) as Ht.
  { unfold tidy. simpl. repeat split; [eauto | repeat constructor]. }
  assert (in_range MoreSamples.player_at_start) as Hr
    by (unfold in_range, steps_length; simpl; lia).
  split; [exact Ht |]. split; [exact Hr |].
  destruct (playback_runs_to_the_end MoreSamples.player_at_start Samples.one_timer
              1%positive Ht Hr eq_refl) as (Hk & _ & _ & Hoff & _).
  split; [exact Hk | exact Hoff].
Defined.

(** X16: on a tidy player (as in X14: the live intervals are exactly the one
    whose handle it holds, or none when it holds none), teardown silences
    the component: after [ngOnDestroy] the player is not playing, holds no
    handle, no interval is live, the current step and the steps are as
    before, and a tick of any handle changes nothing. *)
Theorem ngOnDestroy_silences (st : State) :
  tidy st →
  let st' := RootFinderView.ngOnDestroy st in
  isPlaying st'.1 = false
  ∧ simulationInterval st'.1 = None
  ∧ live_handles st'.2 = []
  ∧ currentStep st'.1 = currentStep st.1
  ∧ steps st'.1 = steps st.1
  ∧ ∀ h, tick h st' = st'.
Proof.
  intros Ht st'. subst st'. unfold RootFinderView.ngOnDestroy.
  destruct (stopSimulation_no_handle st) as [Hnone Hoff].
  pose proof (tidy_stopSimulation st Ht) as (Hlive & _ & _).
  rewrite Hnone in Hlive.
  destruct (stopSimulation_steps st) as [Hs Hc].
  repeat split; try done.
  intros h. unfold tick. rewrite is_live_handles, Hlive.
  rewrite bool_decide_eq_false_2; [done | by apply not_elem_of_nil].
Qed.

Lemma ngOnDestroy_silences_witness :
  tidy (Samples.player_at_end, Samples.one_timer)
  ∧ live_handles
      (RootFinderView.ngOnDestroy (Samples.player_at_end, Samples.one_timer)).2
    = []
  ∧ tick 1%positive
      (RootFinderView.ngOnDestroy (Samples.player_at_end, Samples.one_timer))
    = RootFinderView.ngOnDestroy (Samples.player_at_end, Samples.one_timer).
Proof.
  assert (tidy (Samples.player_at_end, Samples.one_timer)) as Ht.
  { unfold tidy. simpl. repeat split; [eauto | repeat constructor]. }
  split; [exact Ht |].
  destruct (ngOnDestroy_silences _ Ht) as (_ & _ & Hlive & _ & _ & Htick).
  split; [exact Hlive | exact (Htick 1%positive)].
Defined.

End PlaybackMore.

(** * More about the root finder *)

Section RootMore.
Import RootFinder.

(** The fields of the payload, method by method. *)
Lemma payload_of_parameters (c : Component) :
  let r := payload_of c in
  (ApiService.rf_xLower r
   = if bool_decide (method c ∈ ["bisection"; "false-position"])
     then Some (xLower c) else None)
  ∧ (ApiService.rf_xUpper r
     = if bool_decide (method c ∈ ["bisection"; "false-position"])
       then Some (xUpper c) else None)
  ∧ (ApiService.rf_x0 r
     = if bool_decide (method c ∈ ["fixed-point"; "newton"; "modified-newton";
                                   "secant"])
       then Some (x0 c) else None)
  ∧ (ApiService.rf_x1 r
     = if bool_decide (method c = "secant") then Some (x1 c) else None)
  ∧ (ApiService.rf_gEquation r
     = if bool_decide (method c = "fixed-point" ∧ gEquation c ≠ "")
       then Some (gEquation c) else None)
  ∧ ApiService.rf_method r = method c
  ∧ ApiService.rf_equation r = equation c.
Proof.
  destruct c as [eq me xl xu a0 a1 ge pr ep mi sb re pl lo em].
  unfold payload_of, requiresInterval, requiresSingleGuess,
    requiresTwoGuesses, is_empty.
  cbn [method equation xLower xUpper x0 x1 gEquation precision eps
       maxIterations stepByStep].
  destruct (decide (me = "bisection")) as [-> | H1];
    [repeat split; reflexivity |].
  destruct (decide (me = "false-position")) as [-> | H2];
    [repeat split; reflexivity |].
  destruct (decide (me = "newton")) as [-> | H3];
    [repeat split; reflexivity |].
  destruct (decide (me = "modified-newton")) as [-> | H4];
    [repeat split; reflexivity |].
  destruct (decide (me = "secant")) as [-> | H5];
    [repeat split; reflexivity |].
  destruct (decide (me = "fixed-point")) as [-> | H6].
  - destruct (decide (ge = "")) as [-> | Hge]; [repeat split; reflexivity |].
    rewrite (bool_decide_eq_false_2 (ge = "")) by done.
    rewrite (bool_decide_eq_true_2 (_ ∧ _)) by done.
    repeat split; reflexivity.
  - rewrite !(bool_decide_eq_false_2 (me = _)) by done.
    rewrite !(bool_decide_eq_false_2 (me ∈ _))
      by (rewrite !elem_of_cons, elem_of_nil; tauto).
    rewrite (bool_decide_eq_false_2 (_ ∧ _)) by (by intros [? _]).
    repeat split; reflexivity.
Qed.

(** X17: The payload carries the parameters of the chosen method and no others:
    the interval bounds for bisection and false position; one guess for
    fixed point, Newton and modified Newton; two guesses for secant; g(x)
    only for fixed point with a non-empty g(x); nothing method-specific
    for an unknown method.  What it carries is what the form holds. *)
Theorem payload_carries_method_parameters (c : Component) :
  let r := payload_of c in
  (ApiService.rf_xLower r
   = if bool_decide (method c ∈ ["bisection"; "false-position"])
     then Some (xLower c) else None)
  ∧ (ApiService.rf_xUpper r
     = if bool_decide (method c ∈ ["bisection"; "false-position"])
       then Some (xUpper c) else None)
  ∧ (ApiService.rf_x0 r
     = if bool_decide (method c ∈ ["fixed-point"; "newton"; "modified-newton";
                                   "secant"])
       then Some (x0 c) else None)
  ∧ (ApiService.rf_x1 r
     = if bool_decide (method c = "secant") then Some (x1 c) else None)
  ∧ (ApiService.rf_gEquation r
     = if bool_decide (method c = "fixed-point" ∧ gEquation c ≠ "")
       then Some (gEquation c) else None)
  ∧ ApiService.rf_method r = method c
  ∧ ApiService.rf_equation r = equation c.
Proof. exact (payload_of_parameters c). Qed.

(** What [handleSolve] of the root finder leaves. *)
Lemma root_handleSolve_run (w : World) :
  ∃ w', handleSolve w = (Normal tt, w')
        ∧ sent w' = sent w ++ [ApiService.solveRootFinding (payload_of (this w))]
        ∧ payload_of (this w') = payload_of (this w)
        ∧ loading (this w') = true
        ∧ result (this w') = None
        ∧ errorMessage (this w') = ""
        ∧ Playback.steps (player (this w')) = []
        ∧ Playback.isPlaying (player (this w')) = false.
Proof.
  destruct w as [c t s].
  destruct c as [eq me xl xu a0 a1 ge pr ep mi sb re [st cs ip sl [h |]] lo em].
  - remember (handleSolve _) as r eqn:Hr. cbv in Hr. subst r.
    eexists. split; [reflexivity |]. repeat split; try reflexivity.
  - remember (handleSolve _) as r eqn:Hr. cbv in Hr. subst r.
    eexists. split; [reflexivity |]. repeat split; try reflexivity.
Qed.

Lemma root_handleSolve_next_run (response : ApiService.RootFindingResponse)
    (w : World) :
  ∃ w', handleSolve_next response w = (Normal tt, w')
        ∧ result (this w') = Some response
        ∧ loading (this w') = false
        ∧ errorMessage (this w') = errorMessage (this w)
        ∧ sent w' = sent w.
Proof.
  destruct w as [c t s]. unfold handleSolve_next.
  destruct (ApiService.rfr_steps response) as [[| x l] |];
    (eexists; split; [reflexivity |]; repeat split; reflexivity).
Qed.

(** X18: An old error message and a new result: in the linear-system component
    the message of a failed request is still there after a later request
    has succeeded, since neither [handleSolve] nor its [next] callback
    writes [errorMessage]; in the root finder [handleSolve] empties it. *)
Theorem errorMessage_outlives_success (e : HttpErrorResponse) :
  (∀ rev response w, ∃ w',
     Reading.then_ (LinearSystemSolver.handleSolve_error e)
       (Reading.then_ (LinearSystemSolver.handleSolve rev)
          (LinearSystemSolver.handleSolve_next response)) w
     = (Normal tt, w')
     ∧ LinearSystemSolver.result (LinearSystemSolver.this w') = Some response
     ∧ LinearSystemSolver.errorMessage (LinearSystemSolver.this w')
       = or_literal (optional_chain e body_message) "An error occurred"
     ∧ LinearSystemSolver.errorMessage (LinearSystemSolver.this w') ≠ "")
  ∧ (∀ response w, ∃ w',
       Reading.then_ (handleSolve_error e)
         (Reading.then_ handleSolve (handleSolve_next response)) w
       = (Normal tt, w')
       ∧ result (this w') = Some response
       ∧ errorMessage (this w') = "").
Proof.
  split.
  - intros rev response w.
    destruct (failed_request_surfaces_message_linear e w)
      as (w1 & Hrun1 & Hem1 & Hform1).
    destruct (solveSystem_returns rev (Reading.linear_payload
                                         (LinearSystemSolver.this w1))
                (LinearSystemSolver.initialGuess (LinearSystemSolver.this w1))
                eq_refl) as [p Hp].
    destruct (handleSolve_run rev w1 p Hp)
      as (w2 & Hrun2 & _ & _ & _ & _ & Hem2 & _).
    destruct (handleSolve_next_run response w2)
      as (w' & Hrun & _ & Hres & _ & Hem & _).
    exists w'.
    rewrite (then_run _ _ _ _ Hrun1), (then_run _ _ _ _ Hrun2).
    split; [exact Hrun |]. split; [exact Hres |].
    rewrite Hem, Hem2, Hem1. split; [reflexivity |].
    by apply or_literal_nonempty.
  - intros response w.
    assert (∃ w1, handleSolve_error e w = (Normal tt, w1)) as [w1 Hrun1]
      by (eexists; reflexivity).
    destruct (root_handleSolve_run w1) as (w2 & Hrun2 & _ & _ & _ & _ & Hem2 & _).
    destruct (root_handleSolve_next_run response w2)
      as (w' & Hrun & Hres & _ & Hem & _).
    exists w'.
    rewrite (then_run _ _ _ _ Hrun1), (then_run _ _ _ _ Hrun2).
    split; [exact Hrun |]. split; [exact Hres |]. by rewrite Hem.
Qed.

End RootMore.

(** * More about the root finder: plotting and clearing *)

Section ViewMore.
Import RootFinderView.

Lemma handlePlot_run (v : View) :
  handlePlot v
  = (Normal tt,
     mkView (solver v) (mkPlotFields None true "")
       (plots v
        ++ [getPlot (mkPlotRequest
                       (RootFinder.method (RootFinder.this (solver v)))
                       (RootFinder.equation (RootFinder.this (solver v))))])).
Proof. by destruct v as [w [i l m] ps]. Qed.

Lemma handlePlot_next_run (response : PlotResponse) (v : View) :
  handlePlot_next response v
  = (Normal tt,
     mkView (solver v)
       (mkPlotFields (Some (response_plotImage response)) false
          (plotErrorMessage (plot v)))
       (plots v)).
Proof. by destruct v as [w [i l m] ps]. Qed.

(** X19: A failed plot request: after [handlePlot] and the error callback,
    [loadingPlot] is false, no image is held, and the plot error message is
    the body's [message] when that is present and "An error occurred while
    generating plot" otherwise (the body's [error] is not read); one
    request for the component's method and equation went to [/plot], and
    the solve side of the component is untouched. *)
Theorem plot_failure_message (e : HttpErrorResponse) (v : View) :
  ∃ v', Reading.then_ handlePlot (handlePlot_error e) v = (Normal tt, v')
        ∧ loadingPlot (plot v') = false
        ∧ plotImage (plot v') = None
        ∧ plotErrorMessage (plot v') ≠ ""
        ∧ (present (optional_chain e body_message) →
             Some (plotErrorMessage (plot v')) = optional_chain e body_message)
        ∧ (¬ present (optional_chain e body_message) →
             plotErrorMessage (plot v')
             = "An error occurred while generating plot")
        ∧ plots v'
          = plots v
            ++ [mkPlotPost (ApiService.apiUrl +:+ "/plot")
                  (mkPlotRequest
                     (RootFinder.method (RootFinder.this (solver v)))
                     (RootFinder.equation (RootFinder.this (solver v))))]
        ∧ solver v' = solver v.
Proof.
  eexists. rewrite (then_run _ _ _ _ (handlePlot_run v)).
  split; [reflexivity |]. simpl.
  split; [reflexivity |]. split; [reflexivity |].
  split; [by apply or_literal_nonempty |].
  split; [apply or_literal_present |].
  split; [apply or_literal_absent |]. split; reflexivity.
Qed.

Lemma plot_failure_message_witness :
  ∃ v', Reading.then_ handlePlot
          (handlePlot_error MoreSamples.error_and_message)
          MoreSamples.fixed_point_view = (Normal tt, v')
        ∧ loadingPlot (plot v') = false
        ∧ Some (plotErrorMessage (plot v')) = Some "Matrix is singular".
Proof.
  destruct (plot_failure_message MoreSamples.error_and_message
              MoreSamples.fixed_point_view)
    as (v' & Hrun & Hlo & _ & _ & Hmsg & _).
  exists v'. split; [exact Hrun |]. split; [exact Hlo |].
  apply Hmsg. reflexivity.
Defined.

(** X20: Plotting and solving do not disturb each other: a plot that has
    arrived stays held, with [loadingPlot] false, when a solve is started
    after it, and the solve starts as usual ([loading] true, result and
    steps dropped, one request posted). *)
Theorem plot_survives_solve (response : PlotResponse) (v : View) :
  ∃ v', Reading.then_ handlePlot
          (Reading.then_ (handlePlot_next response)
             (on_solver RootFinder.handleSolve)) v
        = (Normal tt, v')
        ∧ plotImage (plot v') = Some (response_plotImage response)
        ∧ loadingPlot (plot v') = false
        ∧ plotErrorMessage (plot v') = ""
        ∧ RootFinder.loading (RootFinder.this (solver v')) = true
        ∧ RootFinder.result (RootFinder.this (solver v')) = None
        ∧ RootFinder.sent (solver v')
          = RootFinder.sent (solver v)
            ++ [ApiService.solveRootFinding
                  (RootFinder.payload_of (RootFinder.this (solver v)))]
        ∧ length (plots v') = Datatypes.S (length (plots v)).
Proof.
  rewrite (then_run _ _ _ _ (handlePlot_run v)).
  rewrite (then_run _ _ _ _ (handlePlot_next_run response _)).
  destruct (root_handleSolve_run (solver v))
    as (w' & Hrun & Hsent & _ & Hlo & Hres & _).
  unfold on_solver. cbn [solver plot plots]. rewrite Hrun.
  eexists. split; [reflexivity |]. simpl.
  repeat split; try done. rewrite length_app. simpl. lia.
Qed.

Lemma view_clearAll_run (v : View) :
  ∃ v', clearAll v = (Normal tt, v')
        ∧ RootFinder.equation (RootFinder.this (solver v')) = ""
        ∧ RootFinder.xLower (RootFinder.this (solver v')) = ""
        ∧ RootFinder.xUpper (RootFinder.this (solver v')) = ""
        ∧ RootFinder.x0 (RootFinder.this (solver v')) = ""
        ∧ RootFinder.x1 (RootFinder.this (solver v')) = ""
        ∧ RootFinder.gEquation (RootFinder.this (solver v'))
          = RootFinder.gEquation (RootFinder.this (solver v))
        ∧ RootFinder.method (RootFinder.this (solver v'))
          = RootFinder.method (RootFinder.this (solver v))
        ∧ RootFinder.result (RootFinder.this (solver v')) = None
        ∧ RootFinder.errorMessage (RootFinder.this (solver v')) = ""
        ∧ Playback.steps (RootFinder.player (RootFinder.this (solver v'))) = []
        ∧ Playback.isPlaying (RootFinder.player (RootFinder.this (solver v')))
          = false
        ∧ RootFinder.loading (RootFinder.this (solver v'))
          = RootFinder.loading (RootFinder.this (solver v))
        ∧ plotImage (plot v') = None
        ∧ plotErrorMessage (plot v') = ""
        ∧ loadingPlot (plot v') = loadingPlot (plot v)
        ∧ RootFinder.sent (solver v') = RootFinder.sent (solver v)
        ∧ plots v' = plots v.
Proof.
  destruct v as [[c t s] [i l m] ps].
  destruct c as [eq me xl xu a0 a1 ge pr ep mi sb re [st cs ip sl [h |]] lo em].
  - remember (clearAll _) as r eqn:Hr. vm_compute in Hr. subst r.
    eexists. split; [reflexivity |]. repeat split; reflexivity.
  - remember (clearAll _) as r eqn:Hr. vm_compute in Hr. subst r.
    eexists. split; [reflexivity |]. repeat split; reflexivity.
Qed.

(** X21: [clearAll] of the root finder empties the equation and the four bounds
    and guesses but not g(x): with the method on fixed point and a g(x)
    entered, a solve straight after [clearAll] posts a request with an empty
    equation, an empty first guess and the old g(x).  The loading flags are
    not reset and no request is withdrawn. *)
Theorem clearAll_keeps_gEquation (v : View) :
  RootFinder.method (RootFinder.this (solver v)) = "fixed-point" →
  RootFinder.gEquation (RootFinder.this (solver v)) ≠ "" →
  ∃ v' r,
    Reading.then_ clearAll (on_solver RootFinder.handleSolve) v
    = (Normal tt, v')
    ∧ RootFinder.sent (solver v')
      = RootFinder.sent (solver v) ++ [ApiService.solveRootFinding r]
    ∧ ApiService.rf_equation r = ""
    ∧ ApiService.rf_x0 r = Some ""
    ∧ ApiService.rf_gEquation r
      = Some (RootFinder.gEquation (RootFinder.this (solver v)))
    ∧ plots v' = plots v
    ∧ loadingPlot (plot v') = loadingPlot (plot v).
Proof.
  intros Hme Hge.
  destruct (view_clearAll_run v) as
    (v1 & Hrun1 & Heq & _ & _ & Hx0 & _ & Hg & Hm & _ & _ & _ & _ & _ & _ & _
        & Hlp & Hsent & Hplots).
  destruct (root_handleSolve_run (solver v1)) as (w' & Hrun & Hsent' & _).
  rewrite (then_run _ _ _ _ Hrun1). unfold on_solver. rewrite Hrun.
  do 2 eexists. split; [reflexivity |]. simpl.
  split; [by rewrite Hsent', Hsent |].
  destruct (payload_of_parameters (RootFinder.this (solver v1)))
    as (_ & _ & H0 & _ & Hgq & _ & Hq).
  rewrite Hq, H0, Hgq, Hm, Hme, Hg, Heq, Hx0.
  rewrite (bool_decide_eq_true_2 (_ ∧ _)) by done.
  repeat split; try done.
Qed.

Lemma clearAll_keeps_gEquation_witness :
  ∃ v' r,
    Reading.then_ clearAll (on_solver RootFinder.handleSolve)
      MoreSamples.fixed_point_view = (Normal tt, v')
    ∧ RootFinder.sent (solver v') = [] ++ [ApiService.solveRootFinding r]
    ∧ ApiService.rf_equation r = ""
    ∧ ApiService.rf_x0 r = Some ""
    ∧ ApiService.rf_gEquation r = Some "sqrt(4)"
    ∧ plots v' = []
    ∧ loadingPlot (plot v') = false.
Proof.
  assert ("sqrt(4)" ≠ "") as Hge by discriminate.
  exact (clearAll_keeps_gEquation MoreSamples.fixed_point_view eq_refl Hge).
Defined.

End ViewMore.

(** * More about the theme: loading, toggling and the button *)

Section ThemeMore.
Import ThemeService.

Lemma classList_add_idem (tok : string) (l : list string) :
  classList_add tok (classList_add tok l) = classList_add tok l.
Proof.
  assert (∀ k, tok ∈ k → classList_add tok k = k) as Hin.
  { intros k Hk. unfold classList_add. by rewrite decide_True. }
  destruct (decide (tok ∈ l)) as [Hl | Hl].
  - by rewrite !(Hin l Hl).
  - apply Hin. unfold classList_add. rewrite decide_False by done.
    apply elem_of_app. right. by apply list_elem_of_singleton.
Qed.

Lemma classList_remove_idem (tok : string) (l : list string) :
  classList_remove tok (classList_remove tok l) = classList_remove tok l.
Proof.
  unfold classList_remove. induction l as [| x l IH]; [reflexivity |].
  destruct (decide (x = tok)) as [-> | Hne].
  - rewrite (filter_cons_False _ tok) by (intros H; by apply H). exact IH.
  - rewrite (filter_cons_True _ x l) by done.
    rewrite filter_cons_True by done. by rewrite IH.
Qed.

Lemma applyTheme_idem (isDark : bool) (b : Browser) :
  applyTheme isDark (applyTheme isDark b) = applyTheme isDark b.
Proof.
  destruct isDark; unfold applyTheme; simpl.
  - by rewrite classList_add_idem.
  - by rewrite classList_remove_idem.
Qed.

Lemma applyTheme_NoDup (isDark : bool) (b : Browser) :
  NoDup (classList b) → NoDup (classList (applyTheme isDark b)).
Proof.
  intros Hnd. destruct isDark; simpl.
  - unfold classList_add. destruct (decide ("dark" ∈ classList b)); [done |].
    apply NoDup_app. split; [done |]. split; [| apply NoDup_singleton].
    intros x Hx Hx'. apply list_elem_of_singleton in Hx'. by subst.
  - by apply NoDup_filter.
Qed.

(** X22: A reload changes nothing after a toggle: constructing the service
    again on the browser state a toggle left gives the service and the
    browser state the toggle left. *)
Theorem reload_after_toggle_is_stable (st : ThemeService * Browser) :
  new (toggleDarkMode st).2 = toggleDarkMode st.
Proof.
  destruct st as [this b]. unfold toggleDarkMode, new.
  set (v := negb (darkModeSubject this)).
  assert (getInitialTheme (setItem "darkMode" (String_of_bool v)
                             (applyTheme v b)) = v) as Hinit.
  { unfold getInitialTheme, getItem, setItem. simpl.
    rewrite lookup_insert_eq. apply String_of_bool_true. }
  cbn [snd]. rewrite Hinit. cbn [darkModeSubject]. f_equal.
  destruct v; unfold applyTheme, setItem; simpl;
    [by rewrite classList_add_idem | by rewrite classList_remove_idem].
Qed.

(** X23: Toggling twice brings the flag back and stores its string; whatever the
    class list held before, "dark" is then on the root element exactly
    when the flag is true, the other classes are as they were, and a class
    list without repetitions stays without repetitions. *)
Theorem toggleDarkMode_twice (this : ThemeService) (b : Browser) :
  let st' := toggleDarkMode (toggleDarkMode (this, b)) in
  darkModeSubject st'.1 = darkModeSubject this
  ∧ getItem "darkMode" st'.2 = Some (String_of_bool (darkModeSubject this))
  ∧ ("dark" ∈ classList st'.2 ↔ darkModeSubject this = true)
  ∧ (∀ tok, tok ≠ "dark" → tok ∈ classList st'.2 ↔ tok ∈ classList b)
  ∧ (NoDup (classList b) → NoDup (classList st'.2)).
Proof.
  intros st'. subst st'. unfold toggleDarkMode. cbn [darkModeSubject].
  rewrite negb_involutive. cbn [fst snd].
  set (v := darkModeSubject this).
  split; [reflexivity |].
  split; [unfold getItem, setItem; simpl; apply lookup_insert_eq |].
  assert (∀ x y (c : Browser), classList (setItem x y c) = classList c)
    as Hcl by reflexivity.
  rewrite !Hcl.
  assert (∀ d x y (c : Browser),
            classList (applyTheme d (setItem x y c))
            = classList (applyTheme d c)) as Hap by (by intros []).
  rewrite Hap.
  split; [apply applyTheme_dark |]. split.
  - intros tok Hne. by rewrite !applyTheme_others.
  - intros Hnd. by do 2 apply applyTheme_NoDup.
Qed.

Lemma toggleDarkMode_twice_witness :
  let st' := toggleDarkMode
               (toggleDarkMode (mkTheme true, mkBrowser ∅ ["app"] false)) in
  darkModeSubject st'.1 = true
  ∧ getItem "darkMode" st'.2 = Some "true"
  ∧ ("dark" ∈ classList st'.2 ↔ true = true)
  ∧ (∀ tok, tok ≠ "dark" → tok ∈ classList st'.2 ↔ tok ∈ ["app"])
  ∧ (NoDup ["app"] → NoDup (classList st'.2)).
Proof.
  exact (toggleDarkMode_twice (mkTheme true) (mkBrowser ∅ ["app"] false)).
Defined.

(** X24: Constructing the service stores nothing: [localStorage] is as it was,
    the flag is the initial theme and "dark" is on the root element
    exactly when it is true.  So while nothing is stored under "darkMode"
    every load follows the system preference of the moment. *)
Theorem new_stores_nothing (b : Browser) :
  localStorage (new b).2 = localStorage b
  ∧ darkModeSubject (new b).1 = getInitialTheme b
  ∧ ("dark" ∈ classList (new b).2 ↔ getInitialTheme b = true)
  ∧ (getItem "darkMode" b = None →
     ∀ os, darkModeSubject
             (new (mkBrowser (localStorage (new b).2) (classList (new b).2)
                     os)).1 = os).
Proof.
  unfold new. cbn [fst snd darkModeSubject].
  split; [by destruct (getInitialTheme b) |].
  split; [reflexivity |]. split; [apply applyTheme_dark |].
  intros Hnone os. unfold getInitialTheme at 1, getItem. simpl.
  assert (localStorage (applyTheme (getInitialTheme b) b) = localStorage b)
    as -> by by destruct (getInitialTheme b).
  unfold getItem in Hnone. by rewrite Hnone.
Qed.

Lemma new_stores_nothing_witness :
  getItem "darkMode" (mkBrowser {["lang" := "en"]} ["app"] true) = None
  ∧ darkModeSubject
      (new (mkBrowser
              (localStorage (new (mkBrowser {["lang" := "en"]} ["app"] true)).2)
              (classList (new (mkBrowser {["lang" := "en"]} ["app"] true)).2)
              false)).1 = false.
Proof.
  split; [reflexivity |].
  exact (proj2 (proj2 (proj2 (new_stores_nothing
                                (mkBrowser {["lang" := "en"]} ["app"] true))))
           eq_refl false).
Defined.

(** X25: The button shows the service's flag: once the page is loaded, after any
    number of clicks the button's [isDarkMode] is the flag of the service,
    "dark" is on the root element exactly when it is true, and it is the
    initial theme after an even number of clicks and its opposite after an
    odd number. *)
Theorem button_mirrors_service (b : Browser) (n : nat) :
  let a := Nat.iter n ThemeToggle.toggleTheme (ThemeToggle.load b) in
  ThemeToggle.isDarkMode (ThemeToggle.this a)
  = darkModeSubject (ThemeToggle.service a)
  ∧ ("dark" ∈ classList (ThemeToggle.browser a)
     ↔ ThemeToggle.isDarkMode (ThemeToggle.this a) = true)
  ∧ ThemeToggle.isDarkMode (ThemeToggle.this a)
    = (if Nat.even n then getInitialTheme b else negb (getInitialTheme b))
  ∧ ThemeToggle.subscribed a = true.
Proof.
  induction n as [| n IH].
  - simpl. unfold ThemeToggle.load, new, ThemeToggle.ngOnInit. simpl.
    repeat split; try reflexivity; apply applyTheme_dark.
  - rewrite Nat.iter_succ.
    destruct IH as (Hflag & Hdark & Hpar & Hsub).
    set (a := Nat.iter n ThemeToggle.toggleTheme (ThemeToggle.load b)) in *.
    unfold ThemeToggle.toggleTheme, toggleDarkMode. rewrite Hsub.
    cbn [ThemeToggle.this ThemeToggle.service ThemeToggle.browser
         ThemeToggle.subscribed ThemeToggle.observe ThemeToggle.isDarkMode
         darkModeSubject].
    split; [reflexivity |]. split.
    + assert (∀ x y (c : Browser), classList (setItem x y c) = classList c)
        as -> by reflexivity.
      apply applyTheme_dark.
    + split; [| reflexivity].
      rewrite <- Hflag, Hpar, Nat.even_succ, <- Nat.negb_even.
      destruct (Nat.even n); simpl; [reflexivity | apply negb_involutive].
Qed.

End ThemeMore.

(** * Facts about the loading flag *)

Section LoadingFacts.

Lemma linear_on_player_loading (f : Playback.State → Playback.State)
    (w : LinearSystemSolver.World) :
  LinearSystemSolver.loading
    (LinearSystemSolver.this (LinearSystemSolver.on_player f w).2)
  = LinearSystemSolver.loading (LinearSystemSolver.this w).
Proof.
  destruct w as [c t s]. unfold LinearSystemSolver.on_player, write. simpl.
  by destruct (f _).
Qed.

Lemma initializeMatrix_loading (c : LinearSystemSolver.Component) :
  LinearSystemSolver.loading (LinearSystemSolver.initializeMatrix c).2
  = LinearSystemSolver.loading c.
Proof.
  destruct (Z.ltb_spec (LinearSystemSolver.numEquations c) 0) as [Hneg | Hn].
  - unfold LinearSystemSolver.initializeMatrix, bind, read, Array_fill.
    simpl. by rewrite (proj2 (Z.ltb_lt _ _) Hneg).
  - by rewrite (initializeMatrix_run c Hn).
Qed.

Lemma addEquation_loading (c : LinearSystemSolver.Component) :
  LinearSystemSolver.loading (LinearSystemSolver.addEquation c).2
  = LinearSystemSolver.loading c.
Proof.
  destruct (Z.ltb_spec (LinearSystemSolver.numEquations c + 1) 0)
    as [Hneg | Hn].
  - unfold LinearSystemSolver.addEquation, bind, write, read, Array_fill.
    simpl. by rewrite (proj2 (Z.ltb_lt _ _) Hneg).
  - by rewrite (addEquation_run c Hn).
Qed.

Lemma removeEquation_loading (c : LinearSystemSolver.Component) :
  LinearSystemSolver.loading (LinearSystemSolver.removeEquation c).2
  = LinearSystemSolver.loading c.
Proof.
  unfold LinearSystemSolver.removeEquation, bind, read, write. simpl.
  by destruct (2 <? LinearSystemSolver.numEquations c).
Qed.

Lemma linear_on_this_loading {A} (a : Action LinearSystemSolver.Component A)
    (w : LinearSystemSolver.World) :
  LinearSystemSolver.loading
    (LinearSystemSolver.this (LinearSystemSolver.on_this a w).2)
  = LinearSystemSolver.loading (a (LinearSystemSolver.this w)).2.
Proof. unfold LinearSystemSolver.on_this. by destruct (a _). Qed.

Lemma linear_clearAll_loading (w : LinearSystemSolver.World) :
  LinearSystemSolver.loading
    (LinearSystemSolver.this (LinearSystemSolver.clearAll w).2)
  = LinearSystemSolver.loading (LinearSystemSolver.this w).
Proof.
  destruct (Z.ltb_spec (LinearSystemSolver.numEquations
                          (LinearSystemSolver.this w)) 0) as [Hneg | Hn].
  - destruct w as [c t s]. simpl in Hneg.
    unfold LinearSystemSolver.clearAll, LinearSystemSolver.on_this,
      LinearSystemSolver.initializeMatrix, bind, read, Array_fill.
    simpl. by rewrite (proj2 (Z.ltb_lt _ _) Hneg).
  - destruct (clearAll_run w Hn)
      as (w' & -> & _ & _ & _ & _ & _ & _ & _ & Hlo & _).
    exact Hlo.
Qed.

Lemma run_linear_loading (m : Methods.linear_method)
    (w : LinearSystemSolver.World) :
  LinearSystemSolver.loading
    (LinearSystemSolver.this (Methods.run_linear m w).2)
  = LinearSystemSolver.loading (LinearSystemSolver.this w).
Proof.
  destruct m; cbn [Methods.run_linear];
    unfold LinearSystemSolver.ngOnInit.
  - rewrite linear_on_this_loading. apply initializeMatrix_loading.
  - apply linear_on_player_loading.
  - rewrite linear_on_this_loading. apply initializeMatrix_loading.
  - rewrite linear_on_this_loading. apply addEquation_loading.
  - rewrite linear_on_this_loading. apply removeEquation_loading.
  - apply linear_clearAll_loading.
  - apply linear_on_player_loading.
Qed.

Lemma root_on_player_loading (f : Playback.State → Playback.State)
    (v : RootFinderView.View) :
  RootFinder.loading
    (RootFinder.this
       (RootFinderView.solver
          (RootFinderView.on_solver (RootFinder.on_player f) v).2))
  = RootFinder.loading (RootFinder.this (RootFinderView.solver v)).
Proof.
  destruct v as [[c t s] pf ps].
  unfold RootFinderView.on_solver, RootFinder.on_player, write. simpl.
  by destruct (f _).
Qed.

Lemma run_root_loading (m : Methods.root_method) (v : RootFinderView.View) :
  RootFinder.loading
    (RootFinder.this (RootFinderView.solver (Methods.run_root m v).2))
  = RootFinder.loading (RootFinder.this (RootFinderView.solver v)).
Proof.
  destruct m; cbn [Methods.run_root].
  - by destruct v as [[c t s] pf ps].
  - apply root_on_player_loading.
  - by rewrite handlePlot_run.
  - by rewrite handlePlot_next_run.
  - by destruct v as [[c t s] pf ps].
  - destruct (view_clearAll_run v)
      as (v' & -> & _ & _ & _ & _ & _ & _ & _ & _ & _ & _ & _ & Hlo & _).
    exact Hlo.
  - apply root_on_player_loading.
Qed.

(** C8, amended: [handleSolve] does not look at [loading].  Every call, in
    either component and whatever [loading] holds, sets [loading] to true
    and posts exactly one request.  The [next] callback and the [error]
    callback of the subscription set [loading] back to false, and they
    are the only ones: no other method of either component changes
    [loading], whether it returns or throws. *)
Theorem handleSolve_posts_every_time :
  (∀ w, ∃ w',
     RootFinder.handleSolve w = (Normal tt, w')
     ∧ RootFinder.sent w'
       = RootFinder.sent w
         ++ [ApiService.solveRootFinding
               (RootFinder.payload_of (RootFinder.this w))]
     ∧ RootFinder.loading (RootFinder.this w') = true)
  ∧ (∀ rev w, ∃ p w',
       LinearSystemSolver.handleSolve rev w = (Normal tt, w')
       ∧ LinearSystemSolver.sent w' = LinearSystemSolver.sent w ++ [p]
       ∧ LinearSystemSolver.loading (LinearSystemSolver.this w') = true)
  ∧ (∀ response w,
       RootFinder.loading
         (RootFinder.this (RootFinder.handleSolve_next response w).2) = false)
  ∧ (∀ response w,
       LinearSystemSolver.loading
         (LinearSystemSolver.this
            (LinearSystemSolver.handleSolve_next response w).2) = false)
  ∧ (∀ e w,
       RootFinder.loading
         (RootFinder.this (RootFinder.handleSolve_error e w).2) = false)
  ∧ (∀ e w,
       LinearSystemSolver.loading
         (LinearSystemSolver.this
            (LinearSystemSolver.handleSolve_error e w).2) = false)
  ∧ (∀ m v,
       RootFinder.loading
         (RootFinder.this (RootFinderView.solver (Methods.run_root m v).2))
       = RootFinder.loading (RootFinder.this (RootFinderView.solver v)))
  ∧ (∀ m w,
       LinearSystemSolver.loading
         (LinearSystemSolver.this (Methods.run_linear m w).2)
       = LinearSystemSolver.loading (LinearSystemSolver.this w)).
Proof.
  destruct handleSolve_posts as (Hroot & Hlinear & Hrnext & Hlnext).
  split; [exact Hroot |]. split; [exact Hlinear |].
  split; [exact Hrnext |]. split; [exact Hlnext |].
  split; [reflexivity |]. split; [reflexivity |].
  split; [exact run_root_loading | exact run_linear_loading].
Qed.

End LoadingFacts.
